(** * chambr: toggles, overrides, the build walk and the HTTP handler

    A shallow embedding of [pkg/override.go], [cmd/build.go] and
    [http/handler.go], with the properties of the design document that
    concern them.

    Conventions.
    - Go strings are byte sequences: [string].
    - A Go [interface{}] that was filled by [encoding/json] is a [Value].
    - A call that may panic returns a [Result]; the panic is an outcome of
      its own, next to the returned value.
    - A slice of pointers ([[]*Override], [[]*Chamber]) is the list of the
      records pointed to; the trees come from a JSON document and share
      nothing.  A nil pointer in such a slice, on which the code panics at
      the first field it reads, has no counterpart here.
    - Packages that the sources import and do not contain
      (golang.org/x/mod/semver, pkg/storage, pkg/chamber.go, utils) are
      modelled from the design or taken as parameters, as said where they
      appear. *)

From Stdlib Require Import ZArith String Ascii List Bool Lia PrimFloat.
From stdpp Require Import base strings gmap list.

Open Scope string_scope.
Open Scope Z_scope.
Open Scope list_scope.

(** ** golang.org/x/mod/semver *)

Module semver.

(** Modelled from the spec: the package golang.org/x/mod/semver is imported
    by [pkg/override.go] and is not part of the source tree.  Section 4.1 of
    the design asks for semantic-versioning precedence over strings of the
    form vMAJOR.MINOR.PATCH[-prerelease]; the definitions of this module
    follow the algorithm of that package ([parse], [compareInt],
    [comparePrerelease]), in which a string that does not parse, the empty
    string included, is lower than every valid version and equal to every
    other invalid string. *)
Record parsed : Type := mkParsed {
  major : string;
  minor : string;
  patch : string;
  short : string;
  prerelease : string;
  build : string
}.

Definition isDigit (c : ascii) : bool := (("0" <=? c) && (c <=? "9"))%char.

Definition isIdentChar (c : ascii) : bool :=
  ((("A" <=? c) && (c <=? "Z")) || (("a" <=? c) && (c <=? "z"))
   || (("0" <=? c) && (c <=? "9")) || (c =? "-"))%char.

(** The longest prefix of digits and what follows it. *)
Fixpoint spanDigits (v : string) : string * string :=
  match v with
  | EmptyString => (EmptyString, EmptyString)
  | String c rest =>
      if isDigit c
      then let '(t, r) := spanDigits rest in (String c t, r)
      else (EmptyString, v)
  end.

(** [isNum v]: every byte of [v] is a digit. *)
Definition isNum (v : string) : bool :=
  String.eqb (snd (spanDigits v)) "".

(** [isBadNum v]: all digits, more than one of them, and a leading zero. *)
Definition isBadNum (v : string) : bool :=
  isNum v && (1 <? String.length v)%nat &&
  match v with String c _ => (c =? "0")%char | EmptyString => false end.

(** [parseInt v = Some (t, rest)] when [ok]. *)
Definition parseInt (v : string) : option (string * string) :=
  match v with
  | EmptyString => None
  | String c _ =>
      if negb (isDigit c) then None
      else
        let '(t, rest) := spanDigits v in
        if (c =? "0")%char && negb (String.length t =? 1)%nat then None
        else Some (t, rest)
  end.

(** The loop of [parsePrerelease]: [acc] is [v[:i]], [cur] is [v[start:i]]
    and the argument is [v[i:]]. *)
Fixpoint scanPrerelease (acc cur v : string) : option (string * string) :=
  match v with
  | EmptyString =>
      if String.eqb cur "" || isBadNum cur then None else Some (acc, v)
  | String c rest =>
      if (c =? "+")%char then
        if String.eqb cur "" || isBadNum cur then None else Some (acc, v)
      else if negb (isIdentChar c) && negb (c =? ".")%char then None
      else if (c =? ".")%char then
        if String.eqb cur "" || isBadNum cur then None
        else scanPrerelease (acc +:+ String c "") "" rest
      else scanPrerelease (acc +:+ String c "") (cur +:+ String c "") rest
  end.

Definition parsePrerelease (v : string) : option (string * string) :=
  match v with
  | String "-" rest => scanPrerelease "-" "" rest
  | _ => None
  end.

(** The loop of [parseBuild], which runs to the end of the string. *)
Fixpoint scanBuild (acc cur v : string) : option (string * string) :=
  match v with
  | EmptyString => if String.eqb cur "" then None else Some (acc, v)
  | String c rest =>
      if negb (isIdentChar c) && negb (c =? ".")%char then None
      else if (c =? ".")%char then
        if String.eqb cur "" then None
        else scanBuild (acc +:+ String c "") "" rest
      else scanBuild (acc +:+ String c "") (cur +:+ String c "") rest
  end.

Definition parseBuild (v : string) : option (string * string) :=
  match v with
  | String "+" rest => scanBuild "+" "" rest
  | _ => None
  end.

(** The tail of [parse], after the patch number: optional prerelease,
    optional build, then nothing. *)
Definition parseTail (ma mi pa v : string) : option parsed :=
  match
    (match v with
     | String "-" _ => parsePrerelease v
     | _ => Some ("", v)
     end)
  with
  | None => None
  | Some (pre, v1) =>
      match
        (match v1 with
         | String "+" _ => parseBuild v1
         | _ => Some ("", v1)
         end)
      with
      | None => None
      | Some (bld, v2) =>
          if String.eqb v2 "" then Some (mkParsed ma mi pa "" pre bld)
          else None
      end
  end.

Definition parse (v : string) : option parsed :=
  match v with
  | String "v" v0 =>
      match parseInt v0 with
      | None => None
      | Some (ma, v1) =>
          match v1 with
          | EmptyString => Some (mkParsed ma "0" "0" ".0.0" "" "")
          | String "." v1' =>
              match parseInt v1' with
              | None => None
              | Some (mi, v2) =>
                  match v2 with
                  | EmptyString => Some (mkParsed ma mi "0" ".0" "" "")
                  | String "." v2' =>
                      match parseInt v2' with
                      | None => None
                      | Some (pa, v3) => parseTail ma mi pa v3
                      end
                  | _ => None
                  end
              end
          | _ => None
          end
      end
  | _ => None
  end.

Definition IsValid (v : string) : bool :=
  match parse v with Some _ => true | None => false end.

Definition compareInt (x y : string) : Z :=
  if String.eqb x y then 0
  else if (String.length x <? String.length y)%nat then -1
  else if (String.length y <? String.length x)%nat then 1
  else if String.ltb x y then -1 else 1.

(** [nextIdent x]: the bytes before the first dot, and the rest. *)
Fixpoint nextIdent (x : string) : string * string :=
  match x with
  | EmptyString => (EmptyString, EmptyString)
  | String c rest =>
      if (c =? ".")%char then (EmptyString, x)
      else let '(dx, r) := nextIdent rest in (String c dx, r)
  end.

(** [x[1:]] on a string known to be non-empty. *)
Definition tail1 (x : string) : string :=
  match x with String _ r => r | EmptyString => EmptyString end.

(** The [for x != "" && y != ""] loop of [comparePrerelease] and the
    statement after it.  Every round removes a byte of [x], so
    [String.length x] rounds are enough; [fuel] counts them. *)
Fixpoint comparePrereleaseLoop (fuel : nat) (x y : string) : Z :=
  if negb (String.eqb x "") && negb (String.eqb y "") then
    match fuel with
    | O => 0
    | S fuel' =>
        let '(dx, x') := nextIdent (tail1 x) in
        let '(dy, y') := nextIdent (tail1 y) in
        if negb (String.eqb dx dy) then
          let ix := isNum dx in
          let iy := isNum dy in
          if negb (Bool.eqb ix iy) then (if ix then -1 else 1)
          else if ix && (String.length dx <? String.length dy)%nat then -1
          else if ix && (String.length dy <? String.length dx)%nat then 1
          else if String.ltb dx dy then -1 else 1
        else comparePrereleaseLoop fuel' x' y'
    end
  else if String.eqb x "" then -1 else 1.

Definition comparePrerelease (x y : string) : Z :=
  if String.eqb x y then 0
  else if String.eqb x "" then 1
  else if String.eqb y "" then -1
  else comparePrereleaseLoop (String.length x) x y.

Definition Compare (v w : string) : Z :=
  match parse v, parse w with
  | None, None => 0
  | None, Some _ => -1
  | Some _, None => 1
  | Some pv, Some pw =>
      let c := compareInt (major pv) (major pw) in
      if negb (c =? 0) then c else
      let c := compareInt (minor pv) (minor pw) in
      if negb (c =? 0) then c else
      let c := compareInt (patch pv) (patch pw) in
      if negb (c =? 0) then c else
      comparePrerelease (prerelease pv) (prerelease pw)
  end.

End semver.


(** ** Results of calls that may panic *)

Inductive Result (A : Type) : Type :=
| Returns (a : A)
| Panics.
Arguments Returns {A} a.
Arguments Panics {A}.

(** ** Values of type interface{} *)

(** What [encoding/json] stores in an [interface{}]: nil for null, bool,
    float64 for every number, string, []interface{} and
    map[string]interface{}. *)
#[warnings="-register-all"]
Inductive Value : Type :=
| VNil
| VBool (b : bool)
| VString (s : string)
| VFloat64 (f : float)
| VSlice (l : list Value)
| VMap (m : list (string * Value)).

Module reflect.

(** The dynamic types of the values above. *)
Inductive Type_ : Type :=
| Bool
| String_
| Float64
| SliceOfInterface
| MapOfInterface.

(** [TypeOf] of the nil interface is the nil [Type]: [None]. *)
Definition TypeOf (i : Value) : option Type_ :=
  match i with
  | VNil => None
  | VBool _ => Some Bool
  | VString _ => Some String_
  | VFloat64 _ => Some Float64
  | VSlice _ => Some SliceOfInterface
  | VMap _ => Some MapOfInterface
  end.

Definition String (t : Type_) : string :=
  match t with
  | Bool => "bool"
  | String_ => "string"
  | Float64 => "float64"
  | SliceOfInterface => "[]interface {}"
  | MapOfInterface => "map[string]interface {}"
  end.

End reflect.

(** ** pkg/override.go *)

Module Override.
(** The fields [MinimumVersionStruct] and [MaximumVersionStruct] carry the
    tag json:"-" and are read by none of the functions below. *)
Record Override : Type := mk {
  MinimumVersion : string;
  MaximumVersion : string;
  Value : Value
}.
End Override.
Abbreviation Override := Override.Override.

Definition ToggleType : Type := string.

Definition booleanType : ToggleType := "boolean".
Definition stringType : ToggleType := "string".
Definition numberType : ToggleType := "number".
Definition customType : ToggleType := "custom".

Module Toggle.
Record Toggle : Type := mk {
  Name : string;
  Type_ : ToggleType;
  Value : Value;
  Overrides : list Override
}.
End Toggle.
Abbreviation Toggle := Toggle.Toggle.

(** [IsValidValue]: [reflect.TypeOf(value).String()] panics on the nil
    [Type], which is what [reflect.TypeOf] returns for a nil interface. *)
Definition IsValidValue (t : Toggle) (value : Value) : Result bool :=
  match reflect.TypeOf value with
  | None => Panics
  | Some ty =>
      let typeOfValue := reflect.String ty in
      if String.eqb typeOfValue "bool" then
        Returns (String.eqb (Toggle.Type_ t) booleanType)
      else if String.eqb typeOfValue "string" then
        Returns (String.eqb (Toggle.Type_ t) stringType)
      else if String.eqb typeOfValue "float64" then
        Returns (String.eqb (Toggle.Type_ t) numberType)
      else Returns false
  end.

(** The observations Go code makes on an [error]: its message, and the
    answers of [errors.As] for [*storage.NotFoundError] and of [errors.Is]
    for [io.EOF] and [os.ErrNotExist]. *)
Record error : Type := mkError {
  Error : string;
  AsNotFoundError : bool;
  IsEOF : bool;
  IsErrNotExist : bool
}.

(** The errors [Toggle.UnmarshalJSON] returns; the three made by
    [fmt.Errorf] keep the arguments of their format string. *)
Inductive UnmarshalError : Type :=
| JSONError (err : error)
    (* returned by json.Unmarshal on the alias *)
| ValueNotOfType (value : Value) (type : ToggleType) (name : string)
    (* %v (%T) not of the type %q from the toggle: %s *)
| OverrideOverlap (previousMax currentMin : string)
    (* an override with maximum version %v is semantically greater than
       the next override's minimum version (%v) *)
| OverrideValueNotOfType (value : Value) (type : ToggleType) (name : string).
    (* %v (%T) not of the type %q from the toggle override: %s *)

(** The [for _, override := range t.Overrides] loop of [UnmarshalJSON];
    [previous] is [None] for the nil pointer.  [None] as a result is the
    nil error. *)
Fixpoint validateOverrides (t : Toggle) (previous : option Override)
    (overrides : list Override) : Result (option UnmarshalError) :=
  match overrides with
  | [] => Returns None
  | override :: rest =>
      if match previous with
         | Some p =>
             semver.Compare (Override.MaximumVersion p)
                            (Override.MinimumVersion override) =? 1
         | None => false
         end
      then
        Returns (Some (OverrideOverlap
          (match previous with
           | Some p => Override.MaximumVersion p
           | None => ""
           end)
          (Override.MinimumVersion override)))
      else
        match IsValidValue t (Override.Value override) with
        | Panics => Panics
        | Returns false =>
            Returns (Some (OverrideValueNotOfType (Override.Value override)
                             (Toggle.Type_ t) (Toggle.Name t)))
        | Returns true => validateOverrides t (Some override) rest
        end
  end.

(** [UnmarshalJSON] from the assignment [*t = alias.toToggle()] on: the
    validation of the decoded toggle. *)
Definition validate (t : Toggle) : Result (option UnmarshalError) :=
  match IsValidValue t (Toggle.Value t) with
  | Panics => Panics
  | Returns false =>
      Returns (Some (ValueNotOfType (Toggle.Value t) (Toggle.Type_ t)
                       (Toggle.Name t)))
  | Returns true => validateOverrides t None (Toggle.Overrides t)
  end.

Section UnmarshalJSON.

(** [json.Unmarshal(b, &alias)] for a [toggleAlias], followed by
    [alias.toToggle()], which is a conversion. *)
Variable json_Unmarshal_toggleAlias : list Byte.byte → error + Toggle.

(** The result is the toggle stored in [*t], when one was stored, and the
    error. *)
Definition UnmarshalJSON (b : list Byte.byte)
    : option Toggle * Result (option UnmarshalError) :=
  match json_Unmarshal_toggleAlias b with
  | inl err => (None, Returns (Some (JSONError err)))
  | inr t => (Some t, validate t)
  end.

End UnmarshalJSON.

(** The condition of the loop of [GetOverride]: the range of [override]
    holds [version]. *)
Definition contains (override : Override) (version : string) : bool :=
  (semver.Compare (Override.MinimumVersion override) version <=? 0)
  && (semver.Compare (Override.MaximumVersion override) version >=? 0).

Fixpoint firstContaining (overrides : list Override) (version : string)
    : option Override :=
  match overrides with
  | [] => None
  | override :: rest =>
      if contains override version then Some override
      else firstContaining rest version
  end.

(** [GetOverride]: [None] is the nil pointer. *)
Definition GetOverride (t : Toggle) (version : string) : option Override :=
  firstContaining (Toggle.Overrides t) version.

Definition GetValueAt (t : Toggle) (version : string) : Value :=
  if negb (String.eqb version "") then
    match GetOverride t version with
    | Some override => Override.Value override
    | None => Toggle.Value t
    end
  else Toggle.Value t.

(** ** pkg: chambers *)

(** Modelled from the spec: the type Chamber and its method InheritWith are
    declared in pkg/chamber.go, which is not part of the source tree.  The
    fields are those of section 3 of the design (name, toggles, children,
    buildable, app), under the names [cmd/build.go] reads them by. *)
#[warnings="-register-all"]
Inductive Chamber : Type := mkChamber {
  Name : string;
  Buildable : bool;
  App : bool;
  Toggles : gmap string Toggle;
  Children : list Chamber
}.

(** Modelled from the spec: InheritWith, of pkg/chamber.go, after section
    4.4: a new mapping that holds every entry of the inherited mapping,
    overwritten and extended by the chamber's own toggles. *)
Definition InheritWith (c : Chamber) (inherited : gmap string Toggle)
    : gmap string Toggle :=
  Toggles c ∪ inherited.

(** The assignment [c.Toggles = built]. *)
Definition setToggles (c : Chamber) (built : gmap string Toggle) : Chamber :=
  mkChamber (Name c) (Buildable c) (App c) built (Children c).

(** ** cmd/build.go *)

(** A call [utils.WriteChamberToFile(file, chamber, pretty)]; the function
    is not part of the source tree, and [compile] ignores what it returns. *)
Record WriteCall : Type := WriteChamberToFile {
  file : string;
  chamber : Chamber;
  pretty : bool
}.

(** [compileFrom toggles parent] is [compile] on the chamber [parent] whose
    field [Toggles] holds [toggles] when the call is made.  The result is the
    sequence of files written and the chamber as the walk leaves it.  Passing
    the field beside the node keeps the recursion structural; [compile]
    below is the function of the source. *)
Fixpoint compileFrom (toggles : gmap string Toggle) (parent : Chamber)
    : list WriteCall * Chamber :=
  match parent with
  | mkChamber name buildable app _ children =>
      let written :=
        if buildable || app
        then [WriteChamberToFile ("./" +:+ name +:+ ".json")
                (mkChamber name buildable app toggles children) true]
        else [] in
      let walks :=
        map (fun child => compileFrom (InheritWith child toggles) child)
            children in
      ((written ++ concat (map fst walks))%list,
       mkChamber name buildable app toggles (map snd walks))
  end.

Definition compile (parent : Chamber) : list WriteCall * Chamber :=
  compileFrom (Toggles parent) parent.

(** ** pkg/storage *)

Module storage.

(** Modelled from the spec: package pkg/storage is not part of the source
    tree.  Section 3 of the design gives the entry, a key and raw bytes, and
    section 4.5 the four operations of a backend, each of which returns or
    fails with an error.  A backend is a state of type [S] together with the
    operations on it. *)
Record StorageEntry : Type := mkEntry {
  Key : string;
  Value : list Byte.byte
}.

Class Storage (S : Type) : Type := {
  Get : S → string → S * (error + StorageEntry);
  Put : S → StorageEntry → S * option error;
  Delete : S → string → S * option error;
  List : S → string → S * (error + list string)
}.

End storage.

(** ** utils *)

Fixpoint HasSuffixSlash (s : string) : bool :=
  match s with
  | EmptyString => false
  | String c EmptyString => (c =? "/")%char
  | String _ rest => HasSuffixSlash rest
  end.

(** Modelled from the spec: utils.EnsureTrailingSlash is not part of the
    source tree; section 4.6 calls its result the trailing-slash-normalized
    path: the path itself when it ends in a slash, and the path followed by
    a slash otherwise. *)
Definition EnsureTrailingSlash (s : string) : string :=
  if HasSuffixSlash s then s else s +:+ "/".

(** ** http/handler.go *)

(** [strings.TrimPrefix]: [s[len(prefix):]] when [s] starts with
    [prefix], and [s] otherwise. *)
Definition TrimPrefix (s prefix : string) : string :=
  if String.prefix prefix s
  then String.substring (String.length prefix)
         (String.length s - String.length prefix) s
  else s.

(** [http.StatusText] on the codes the handler uses. *)
Definition StatusText (code : Z) : string :=
  if code =? 400 then "Bad Request"
  else if code =? 404 then "Not Found"
  else if code =? 405 then "Method Not Allowed"
  else if code =? 500 then "Internal Server Error"
  else "".

(** The verb %q of [fmt] on a string with no byte to escape: the string
    between double quotes.  The handler formats the path "/" with it. *)
Definition Sprintf_q (s : string) : string :=
  String "034" (s +:+ String "034" "").

(** The [data any] handed to [handleResponse]. *)
Inductive any : Type :=
| nil_any
| chamber_any (c : Chamber)
| names_any (names : list string).

Record OperationResponse : Type := mkOperationResponse {
  Data : any;
  Error_ : string
}.

(** What [handleResponse] does to the [http.ResponseWriter]: the header
    Content-Type, the status code and the envelope given to
    [utils.WriteInterfaceWith], which writes it as JSON and is not part of
    the source tree. *)
Record Response : Type := mkResponse {
  ContentType : string;
  StatusCode : Z;
  Body : OperationResponse
}.

Definition handleResponse (statusCode : Z) (data : any) (error : string)
    : Response :=
  let response := mkOperationResponse nil_any "" in
  let response :=
    match data with
    | nil_any => response
    | _ => mkOperationResponse data (Error_ response)
    end in
  let response :=
    if negb (String.eqb error "")
    then mkOperationResponse (Data response) error
    else response in
  mkResponse "application/json" statusCode response.

Record Request : Type := mkRequest {
  Method : string;
  URL_Path : string;
  Request_Body : list Byte.byte
}.

(** The calls the handler makes on the backend, in order. *)
Inductive StorageCall : Type :=
| CallGet (path : string)
| CallPut (entry : storage.StorageEntry)
| CallDelete (path : string)
| CallList (path : string).

(** What a request acts on: the backend, the record of the calls made on it
    and the lines written by [requestLogger.Error]. *)
Record World (S : Type) : Type := mkWorld {
  strg : S;
  calls : list StorageCall;
  logged : list string
}.
Arguments mkWorld {S} strg calls logged.
Arguments strg {S} w.
Arguments calls {S} w.
Arguments logged {S} w.

Section handle.

Context {S : Type} `{!storage.Storage S}.

(** [json.Unmarshal(entry.Value, &c)] for a [realm.Chamber]: the chamber,
    an error, or a panic raised while a toggle of the document is checked. *)
Variable json_Unmarshal_Chamber : list Byte.byte → Result (error + Chamber).

(** [utils.ReadInterfaceWith(tr, &c)], which is not part of the source tree:
    the number of bytes it reads from its reader, and the chamber, an error
    or a panic. *)
Variable ReadInterfaceWith : list Byte.byte → nat * Result (error + Chamber).

Definition logError (msg : string) (σ : World S) : World S :=
  mkWorld (strg σ) (calls σ) (logged σ ++ [msg]).

Definition strg_Get (path : string) (σ : World S)
    : World S * (error + storage.StorageEntry) :=
  let '(s, r) := storage.Get (strg σ) path in
  (mkWorld s (calls σ ++ [CallGet path]) (logged σ), r).

Definition strg_Put (entry : storage.StorageEntry) (σ : World S)
    : World S * option error :=
  let '(s, r) := storage.Put (strg σ) entry in
  (mkWorld s (calls σ ++ [CallPut entry]) (logged σ), r).

Definition strg_Delete (path : string) (σ : World S)
    : World S * option error :=
  let '(s, r) := storage.Delete (strg σ) path in
  (mkWorld s (calls σ ++ [CallDelete path]) (logged σ), r).

Definition strg_List (path : string) (σ : World S)
    : World S * (error + list string) :=
  let '(s, r) := storage.List (strg σ) path in
  (mkWorld s (calls σ ++ [CallList path]) (logged σ), r).

(** [io.TeeReader(r.Body, buf)] after a reader took [n] bytes: the buffer
    holds the bytes that were read. *)
Definition TeeReader_buf (body : list Byte.byte) (n : nat) : list Byte.byte :=
  take n body.

(** The function registered on the pattern "/v1/". *)
Definition handle (r : Request) (σ : World S) : World S * Result Response :=
  let path := TrimPrefix (URL_Path r) "/v1" in
  if String.eqb (Method r) "GET" then
    if String.eqb path "/" then
      let errStr := "path cannot be " +:+ Sprintf_q path in
      let σ := logError errStr σ in
      (σ, Returns (handleResponse 404 nil_any errStr))
    else
      let '(σ, got) := strg_Get path σ in
      match got with
      | inl err =>
          let msg := Error err in
          let σ := logError msg σ in
          let msg := if AsNotFoundError err then StatusText 404 else msg in
          (σ, Returns (handleResponse 404 nil_any msg))
      | inr entry =>
          match json_Unmarshal_Chamber (storage.Value entry) with
          | Panics => (σ, Panics)
          | Returns (inl err) =>
              let σ := logError (Error err) σ in
              (σ, Returns (handleResponse 500 nil_any (StatusText 500)))
          | Returns (inr c) =>
              (σ, Returns (handleResponse 200 (chamber_any c) ""))
          end
      end
  else if String.eqb (Method r) "POST" then
    let '(n, decoded) := ReadInterfaceWith (Request_Body r) in
    let buf := TeeReader_buf (Request_Body r) n in
    match decoded with
    | Panics => (σ, Panics)
    | Returns (inl err) =>
        let σ := logError (Error err) σ in
        let msg := StatusText 400 in
        let msg :=
          if IsEOF err then "Request body must not be empty" else msg in
        (σ, Returns (handleResponse 400 nil_any msg))
    | Returns (inr c) =>
        let entry :=
          storage.mkEntry (EnsureTrailingSlash path +:+ Name c) buf in
        let '(σ, put) := strg_Put entry σ in
        match put with
        | Some err =>
            let σ := logError (Error err) σ in
            (σ, Returns (handleResponse 500 nil_any (Error err)))
        | None => (σ, Returns (handleResponse 201 nil_any ""))
        end
    end
  else if String.eqb (Method r) "DELETE" then
    let '(σ, deleted) := strg_Delete path σ in
    match deleted with
    | Some err =>
        let σ := logError (Error err) σ in
        if AsNotFoundError err
        then (σ, Returns (handleResponse 404 nil_any (StatusText 404)))
        else (σ, Returns (handleResponse 500 nil_any (Error err)))
    | None => (σ, Returns (handleResponse 200 nil_any ""))
    end
  else if String.eqb (Method r) "LIST" then
    let '(σ, listed) := strg_List path σ in
    match listed with
    | inl err =>
        let σ := logError (Error err) σ in
        if IsErrNotExist err
        then (σ, Returns (handleResponse 404 nil_any (StatusText 404)))
        else (σ, Returns (handleResponse 500 nil_any (Error err)))
    | inr names => (σ, Returns (handleResponse 200 (names_any names) ""))
    end
  else
    (σ, Returns (handleResponse 405 nil_any (StatusText 405))).

End handle.

(** ** The words of the design *)

(** Order on versions: what [semver.Compare] says. *)
Definition semver_le (a b : string) : Prop := semver.Compare a b <= 0.
Definition semver_lt (a b : string) : Prop := semver.Compare a b < 0.

(** Containment as section 4.2 of the design words it: the version lies
    between the two endpoints, and an empty endpoint bounds nothing. *)
Definition containsAsSpecified (o : Override) (version : string) : Prop :=
  (Override.MinimumVersion o = "" ∨ semver_le (Override.MinimumVersion o) version)
  ∧ (Override.MaximumVersion o = "" ∨ semver_le version (Override.MaximumVersion o)).

(** [a] stands immediately before [b] in [l]. *)
Definition adjacent {A : Type} (l : list A) (a b : A) : Prop :=
  ∃ l1 l2, l = l1 ++ a :: b :: l2.

(** [a] stands somewhere before [b] in [l]. *)
Definition before {A : Type} (l : list A) (a b : A) : Prop :=
  ∃ l1 l2 l3, l = l1 ++ a :: l2 ++ b :: l3.

(** Every override ends no later than the next one starts. *)
Fixpoint ascending (l : list Override) : Prop :=
  match l with
  | a :: (b :: _) as rest =>
      semver.Compare (Override.MaximumVersion a) (Override.MinimumVersion b) <= 0
      ∧ ascending rest
  | _ => True
  end.

(** The pairing of declared types and runtime types of section 4.3. *)
Definition typeMatches (type : ToggleType) (v : Value) : Prop :=
  match v with
  | VBool _ => type = booleanType
  | VString _ => type = stringType
  | VFloat64 _ => type = numberType
  | _ => False
  end.

(** The value of the toggle and the values of its overrides pass
    [IsValidValue]. *)
Definition overridesTyped (t : Toggle) (l : list Override) : Prop :=
  Forall (λ o, IsValidValue t (Override.Value o) = Returns true) l.

Definition wellTyped (t : Toggle) : Prop :=
  IsValidValue t (Toggle.Value t) = Returns true
  ∧ overridesTyped t (Toggle.Overrides t).

(** A call returned an error. *)
Definition failed {E : Type} (r : Result (option E)) : Prop :=
  ∃ e, r = Returns (Some e).

(** The override checked before the first one of [l], followed by [l]. *)
Definition chain (previous : option Override) (l : list Override)
    : list Override :=
  match previous with
  | Some p => p :: l
  | None => l
  end.

(** ** Sample toggles *)

Module samples.

(** The scenario of section 8: a boolean toggle that is true, and false
    from v1.0.0 to v1.5.0. *)
Definition scenario : Toggle :=
  Toggle.mk "beta" booleanType (VBool true)
    [Override.mk "v1.0.0" "v1.5.0" (VBool false)].

(** Three overrides; the second one ends after the third one starts. *)
Definition A1 : Override := Override.mk "v1.0.0" "v2.0.0" (VBool false).
Definition B1 : Override := Override.mk "v3.0.0" "v9.0.0" (VBool false).
Definition C1 : Override := Override.mk "v5.0.0" "v6.0.0" (VBool false).
Definition three : Toggle :=
  Toggle.mk "three" booleanType (VBool true) [A1; B1; C1].

(** Two overrides in order, the first with a string for a boolean toggle. *)
Definition A2 : Override := Override.mk "v1.0.0" "v2.0.0" (VString "off").
Definition B2 : Override := Override.mk "v3.0.0" "v4.0.0" (VBool false).
Definition mistyped : Toggle :=
  Toggle.mk "mistyped" booleanType (VBool true) [A2; B2].

(** Two overrides that share the endpoint v2.0.0. *)
Definition A3 : Override := Override.mk "v1.0.0" "v2.0.0" (VBool false).
Definition B3 : Override := Override.mk "v2.0.0" "v3.0.0" (VBool false).
Definition touching : Toggle :=
  Toggle.mk "touching" booleanType (VBool true) [A3; B3].

(** Two overrides of which the first ends after the second starts. *)
Definition A4 : Override := Override.mk "v1.0.0" "v3.0.0" (VBool false).
Definition B4 : Override := Override.mk "v2.0.0" "v4.0.0" (VBool false).
Definition overlapping : Toggle :=
  Toggle.mk "overlapping" booleanType (VBool true) [A4; B4].

(** Three overrides in which the second one ends before it starts. *)
Definition A5 : Override := Override.mk "v1.0.0" "v5.0.0" (VBool false).
Definition C5 : Override := Override.mk "v6.0.0" "v1.0.0" (VBool false).
Definition B5 : Override := Override.mk "v2.0.0" "v3.0.0" (VBool false).
Definition detour : Toggle :=
  Toggle.mk "detour" booleanType (VBool true) [A5; C5; B5].

(** An override with no maximum version. *)
Definition openEnded : Override := Override.mk "v1.0.0" "" (VBool false).

(** An override with no minimum version. *)
Definition openStart : Override := Override.mk "" "v1.0.0" (VBool false).

(** A toggle whose value is the JSON null, and one whose second override
    holds it. *)
Definition nullValue : Toggle :=
  Toggle.mk "null" customType VNil [].
Definition nullOverride : Toggle :=
  Toggle.mk "nullOverride" booleanType (VBool true)
    [A1; Override.mk "v3.0.0" "v4.0.0" VNil; C1].

End samples.

(** ** The walk in the words of the design *)

(** The nodes of a tree, depth first: a node, then the nodes of each child
    in stored order. *)
Fixpoint preorder (c : Chamber) : list Chamber :=
  match c with
  | mkChamber _ _ _ _ children => c :: concat (map preorder children)
  end.

(** A node for which an artifact is due. *)
Definition flagged (c : Chamber) : bool := Buildable c || App c.

(** The name of the artifact of a node and the toggles it holds. *)
Definition artifact (c : Chamber) : string * gmap string Toggle :=
  ("./" +:+ Name c +:+ ".json", Toggles c).

(** ** A sample backend and sample decoders *)

Module memory.

(** A backend that keeps the entries in a map from keys to bytes. *)
Definition notFound : error := mkError "key not found" true false true.

Definition Get (s : gmap string (list Byte.byte)) (path : string)
    : gmap string (list Byte.byte) * (error + storage.StorageEntry) :=
  match s !! path with
  | Some value => (s, inr (storage.mkEntry path value))
  | None => (s, inl notFound)
  end.

Definition Put (s : gmap string (list Byte.byte))
    (entry : storage.StorageEntry)
    : gmap string (list Byte.byte) * option error :=
  (<[storage.Key entry := storage.Value entry]> s, None).

Definition Delete (s : gmap string (list Byte.byte)) (path : string)
    : gmap string (list Byte.byte) * option error :=
  match s !! path with
  | Some _ => (delete path s, None)
  | None => (s, Some notFound)
  end.

Definition List (s : gmap string (list Byte.byte)) (path : string)
    : gmap string (list Byte.byte) * (error + list string) :=
  match List.filter (String.prefix path) (map fst (map_to_list s)) with
  | [] => (s, inl notFound)
  | names => (s, inr names)
  end.

#[global] Instance Storage : storage.Storage (gmap string (list Byte.byte)) :=
  {| storage.Get := Get;
     storage.Put := Put;
     storage.Delete := Delete;
     storage.List := List |}.

(** The document of the scenario of section 8, an object with the name
    billing and no toggle, and the chamber it stands for. *)
Definition billingDocument : string :=
  "{" +:+ Sprintf_q "name" +:+ ":" +:+ Sprintf_q "billing" +:+ ","
  +:+ Sprintf_q "toggles" +:+ ":{}}".

Definition billing : Chamber := mkChamber "billing" false false ∅ [].

Definition syntaxError : error :=
  mkError "invalid character" false false false.
Definition unexpectedEnd : error :=
  mkError "unexpected end of JSON input" false false false.
Definition EOF : error := mkError "EOF" false true false.

(** A decoder that knows one document. *)
Definition json_Unmarshal_Chamber (b : list Byte.byte)
    : Result (error + Chamber) :=
  if String.eqb (string_of_list_byte b) "" then Returns (inl unexpectedEnd)
  else if String.eqb (string_of_list_byte b) billingDocument
  then Returns (inr billing)
  else Returns (inl syntaxError).

(** A reader that takes the whole body and knows the same document; on an
    empty body it returns [io.EOF]. *)
Definition ReadInterfaceWith (b : list Byte.byte)
    : nat * Result (error + Chamber) :=
  (length b,
   if String.eqb (string_of_list_byte b) "" then Returns (inl EOF)
   else if String.eqb (string_of_list_byte b) billingDocument
   then Returns (inr billing)
   else Returns (inl syntaxError)).

Definition empty : World (gmap string (list Byte.byte)) := mkWorld ∅ [] [].

Definition post : Request :=
  mkRequest "POST" "/v1/acme/" (list_byte_of_string billingDocument).

Definition get : Request := mkRequest "GET" "/v1/acme/billing" [].

Definition getRoot : Request := mkRequest "GET" "/v1/" [].

Definition postNothing : Request := mkRequest "POST" "/v1/acme/" [].

Definition deleteBilling : Request := mkRequest "DELETE" "/v1/acme/billing" [].

Definition listAcme : Request := mkRequest "LIST" "/v1/acme/" [].

Definition patchBilling : Request := mkRequest "PATCH" "/v1/acme/billing" [].

(** The backend after the document was stored under /acme/billing. *)
Definition stored : World (gmap string (list Byte.byte)) :=
  mkWorld {[ "/acme/billing" := list_byte_of_string billingDocument ]} [] [].

End memory.

(** A tree of three chambers for the walk. *)
Module tree.

Definition on : Toggle := Toggle.mk "dark" booleanType (VBool true) [].
Definition off : Toggle := Toggle.mk "dark" booleanType (VBool false) [].
Definition limit : Toggle := Toggle.mk "limit" stringType (VString "ten") [].

Definition leaf : Chamber :=
  mkChamber "leaf" true false ∅ [].
Definition middle : Chamber :=
  mkChamber "middle" false true {[ "dark" := off ]} [leaf].
Definition root : Chamber :=
  mkChamber "root" false false {[ "dark" := on; "limit" := limit ]} [middle].

End tree.

(** ** pkg/override.go: the override of package rein *)

Module rein.

Section Override.

(** The type [Version] and the function [NewVersion] are declared in a file
    of the package that is not part of the source tree: the type is a
    parameter, and so is the function, with its two results. *)
Variable Version : Type.

Record Override : Type := mk {
  MinimumVersionStruct : option Version;
  MaximumVersionStruct : option Version;
  MinimumVersion : string;
  MaximumVersion : string;
  Value : Value
}.

Variable NewVersion : string → option Version * option error.

(** [json.Unmarshal(b, &alias)] for an [overrideAlias], a type with the
    fields of [Override] and none of its methods. *)
Variable json_Unmarshal_overrideAlias : list Byte.byte → error + Override.

(** [errors.New]. *)
Definition errors_New (text : string) : error :=
  mkError text false false false.

Definition toOverride (o : Override) : Override :=
  mk None None (MinimumVersion o) (MaximumVersion o) (Value o).

(** [UnmarshalJSON] on the receiver [o]: the receiver as the call leaves it,
    and the error, [None] for nil. *)
Definition UnmarshalJSON (o : Override) (b : list Byte.byte)
    : Override * option error :=
  match json_Unmarshal_overrideAlias b with
  | inl err => (o, Some err)
  | inr alias =>
      let o := toOverride alias in
      let minEmpty := String.eqb (MinimumVersion o) "" in
      let maxEmpty := String.eqb (MaximumVersion o) "" in
      if minEmpty && maxEmpty then
        (o, Some (errors_New "Override ranges cannot both be empty"))
      else
        let '(v, err) := NewVersion (MinimumVersion o) in
        let o := mk v (MaximumVersionStruct o) (MinimumVersion o)
                   (MaximumVersion o) (Value o) in
        match err with
        | Some e => (o, Some e)
        | None =>
            let '(v, err) := NewVersion (MaximumVersion o) in
            let o := mk (MinimumVersionStruct o) v (MinimumVersion o)
                       (MaximumVersion o) (Value o) in
            match err with
            | Some e => (o, Some e)
            | None => (o, None)
            end
        end
  end.

End Override.

End rein.

(** ** http: the request of an agent *)

Module strconv.

(** [strconv.ParseBool]: [Some] of the value when the error is nil, [None]
    when it is a syntax error, beside which the value returned is false. *)
Definition ParseBool (str : string) : option bool :=
  if String.eqb str "1" || String.eqb str "t" || String.eqb str "T"
     || String.eqb str "true" || String.eqb str "TRUE"
     || String.eqb str "True"
  then Some true
  else if String.eqb str "0" || String.eqb str "f" || String.eqb str "F"
          || String.eqb str "false" || String.eqb str "FALSE"
          || String.eqb str "False"
  then Some false
  else None.

End strconv.

Definition Operation : Type := string.

Definition PutOperation : Operation := "put".
Definition GetOperation : Operation := "get".
Definition DeleteOperation : Operation := "delete".
Definition ListOperation : Operation := "list".

Module AgentRequest.
Record AgentRequest : Type := mk {
  Request : Request;
  ID : string;
  Operation : Operation;
  Path : string
}.
End AgentRequest.
Abbreviation AgentRequest := AgentRequest.AgentRequest.

(** [buildAgentRequest].  [list] is [req.URL.Query().Get("list")], the
    first value of the parameter list of the query or the empty string, and
    [id] is [uuid.New().String()]. *)
Definition buildAgentRequest (req : Request) (list : string) (id : string)
    : AgentRequest :=
  let p := TrimPrefix (URL_Path req) "/v1/chambers" in
  let op : Operation :=
    if String.eqb (Method req) "GET" then
      if negb (String.eqb list "") then
        (* list, _ := strconv.ParseBool(listStr) *)
        let list :=
          match strconv.ParseBool list with
          | Some b => b
          | None => false
          end in
        if list then ListOperation else GetOperation
      else GetOperation
    else if String.eqb (Method req) "POST" then PutOperation
    else if String.eqb (Method req) "DELETE" then DeleteOperation
    else if String.eqb (Method req) "LIST" then ListOperation
    else "" in
  AgentRequest.mk req id op (EnsureTrailingSlash p).

(** ** options: the stack *)

Module options.

Section Stack.

(** The type [OpenOption] is declared in a file of the package that is not
    part of the source tree. *)
Variable OpenOption : Type.

(** A slice; the top of the stack is its last element. *)
Definition Stack : Type := list OpenOption.

Definition IsEmpty (s : Stack) : bool := (length s =? 0)%nat.

(** [Push]: the stack after the call. *)
Definition Push (s : Stack) (option : OpenOption) : Stack := s ++ [option].

(** [Pop]: the stack after the call and the two results.  The indexing of
    the slice at [index] panics when the index is out of range. *)
Definition Pop (s : Stack) : Result (Stack * (option OpenOption * bool)) :=
  if IsEmpty s then Returns (s, (None, false))
  else
    let index := (length s - 1)%nat in
    match s !! index with
    | Some element => Returns (take index s, (Some element, true))
    | None => Panics
    end.

(** [n] calls of [Pop], while they succeed: the stack left and the elements
    returned, first popped first. *)
Fixpoint PopN (n : nat) (s : Stack) : Stack * list OpenOption :=
  match n with
  | O => (s, [])
  | S n' =>
      match Pop s with
      | Returns (s', (Some element, true)) =>
          let '(s'', popped) := PopN n' s' in (s'', element :: popped)
      | _ => (s, [])
      end
  end.

End Stack.

End options.

(** ** The walk: what it leaves alone *)

(** A tree with the toggles of every node taken away. *)
Fixpoint eraseToggles (c : Chamber) : Chamber :=
  match c with
  | mkChamber name buildable app _ children =>
      mkChamber name buildable app ∅ (map eraseToggles children)
  end.

(** ** The handler: kinds of calls *)

(** The call a request of method [method] may make on the backend. *)
Definition callOf (method path : string) (call : StorageCall) : Prop :=
  match call with
  | CallGet p => method = "GET" ∧ p = path
  | CallPut entry =>
      method = "POST"
      ∧ ∃ name, storage.Key entry = EnsureTrailingSlash path +:+ name
  | CallDelete p => method = "DELETE" ∧ p = path
  | CallList p => method = "LIST" ∧ p = path
  end.

(** ** A reader for the entry at the root *)

Module unnamed.

(** A chamber without a name, and a reader that takes the whole body and
    returns that chamber. *)
Definition anonymous : Chamber := mkChamber "" false false ∅ [].

Definition ReadInterfaceWith (b : list Byte.byte)
    : nat * Result (error + Chamber) :=
  (length b, Returns (inr anonymous)).

Definition post : Request := mkRequest "POST" "/v1/" [].

End unnamed.

(** * Properties *)

(** ** The comparison of versions *)

Module semver_facts.
Import semver.
#[local] Arguments String.append _ _ : simpl nomatch.

Definition sign (z : Z) : Prop := z = -1 ∨ z = 0 ∨ z = 1.

Lemma compareInt_sign x y : sign (compareInt x y).
Proof.
  unfold compareInt, sign.
  repeat match goal with |- context [if ?b then _ else _] => destruct b end;
    auto.
Qed.

Lemma comparePrereleaseLoop_sign fuel : ∀ x y,
  sign (comparePrereleaseLoop fuel x y).
Proof.
  induction fuel as [|fuel IH]; intros x y; simpl.
  - unfold sign.
    repeat match goal with |- context [if ?b then _ else _] => destruct b end;
      auto.
  - destruct (negb (x =? "")%string && negb (y =? "")%string).
    + destruct (nextIdent (tail1 x)) as [dx x'].
      destruct (nextIdent (tail1 y)) as [dy y'].
      destruct (negb (dx =? dy)%string); [|apply IH].
      unfold sign.
      repeat match goal with |- context [if ?b then _ else _] => destruct b end;
        auto.
    + unfold sign. destruct (x =? "")%string; auto.
Qed.

Lemma comparePrerelease_sign x y : sign (comparePrerelease x y).
Proof.
  unfold comparePrerelease.
  destruct (x =? y)%string; [right; left; reflexivity|].
  destruct (x =? "")%string; [right; right; reflexivity|].
  destruct (y =? "")%string; [left; reflexivity|].
  apply comparePrereleaseLoop_sign.
Qed.

(** [Compare] returns -1, 0 or 1. *)
Lemma Compare_sign v w : sign (Compare v w).
Proof.
  unfold Compare.
  destruct (parse v) as [pv|], (parse w) as [pw|];
    try (unfold sign; auto; fail).
  destruct (negb (compareInt (major pv) (major pw) =? 0));
    [apply compareInt_sign|].
  destruct (negb (compareInt (minor pv) (minor pw) =? 0));
    [apply compareInt_sign|].
  destruct (negb (compareInt (patch pv) (patch pw) =? 0));
    [apply compareInt_sign|].
  apply comparePrerelease_sign.
Qed.

(** Greater-than is the result 1. *)
Lemma Compare_gt_iff v w : Compare v w > 0 ↔ Compare v w = 1.
Proof. destruct (Compare_sign v w) as [H|[H|H]]; rewrite H; lia. Qed.

Lemma Compare_eqb_1 v w : (Compare v w =? 1) = (0 <? Compare v w).
Proof.
  destruct (Compare_sign v w) as [H|[H|H]]; rewrite H; reflexivity.
Qed.

(** An invalid version is below every valid one and equal to every
    invalid one. *)
Lemma Compare_invalid_l v w :
  IsValid v = false → Compare v w = if IsValid w then -1 else 0.
Proof.
  unfold IsValid, Compare. destruct (parse v); [discriminate|].
  destruct (parse w); reflexivity.
Qed.

Lemma Compare_invalid_r v w :
  IsValid w = false → Compare v w = if IsValid v then 1 else 0.
Proof.
  unfold IsValid, Compare. destruct (parse w); [discriminate|].
  destruct (parse v); reflexivity.
Qed.

Lemma IsValid_empty : IsValid "" = false.
Proof. reflexivity. Qed.

(** With the empty string on the left the result is never positive; it is
    non-negative only against an invalid version. *)
Lemma Compare_empty_l_le w : Compare "" w <= 0.
Proof.
  rewrite (Compare_invalid_l "" w IsValid_empty). destruct (IsValid w); lia.
Qed.

Lemma Compare_empty_l_ge w : Compare "" w >= 0 ↔ IsValid w = false.
Proof.
  rewrite (Compare_invalid_l "" w IsValid_empty).
  destruct (IsValid w); split; intros; try lia; try discriminate; auto.
Qed.

(** *** Swapping the arguments *)

Lemma ltb_antisym x y : x ≠ y → String.ltb y x = negb (String.ltb x y).
Proof.
  intros Hne. unfold String.ltb. rewrite (String.compare_antisym y x).
  destruct (String.compare x y) eqn:E; simpl; try reflexivity.
  apply String.compare_eq_iff in E. contradiction.
Qed.

Lemma compareInt_antisym x y : compareInt y x = - compareInt x y.
Proof.
  unfold compareInt. rewrite (String.eqb_sym y x).
  destruct (String.eqb_spec x y) as [->|Hne]; [reflexivity|].
  destruct (Nat.ltb_spec (String.length x) (String.length y)),
           (Nat.ltb_spec (String.length y) (String.length x)); try lia; try reflexivity.
  rewrite (ltb_antisym x y Hne). destruct (String.ltb x y); reflexivity.
Qed.

Lemma nextIdent_app x : ∀ dx x', nextIdent x = (dx, x') →
  x = dx +:+ x' ∧ (x' = "" ∨ ∃ r, x' = String "." r).
Proof.
  induction x as [|c x IH]; simpl; intros dx x'.
  - intros [= <- <-]. auto.
  - destruct (Ascii.eqb_spec c ".") as [->|Hc].
    + intros [= <- <-]. split; [reflexivity|]. right. eauto.
    + destruct (nextIdent x) as [d r]. intros [= <- <-].
      destruct (IH d r eq_refl) as [-> H]. auto.
Qed.

Lemma length_app_str (a b : string) :
  String.length (a +:+ b) = (String.length a + String.length b)%nat.
Proof. induction a; simpl; auto. Qed.

Lemma nextIdent_tail_length x dx x' :
  x ≠ "" → nextIdent (tail1 x) = (dx, x') →
  (String.length x' < String.length x)%nat.
Proof.
  destruct x as [|c x]; [done|]. simpl. intros _ H.
  apply nextIdent_app in H as [-> _]. rewrite length_app_str. lia.
Qed.

Lemma loop_fuel f1 : ∀ f2 x y,
  (String.length x ≤ f1)%nat → (String.length x ≤ f2)%nat →
  comparePrereleaseLoop f1 x y = comparePrereleaseLoop f2 x y.
Proof.
  induction f1 as [|f1 IH]; intros f2 x y H1 H2.
  - destruct x; [|simpl in H1; lia]. destruct f2; reflexivity.
  - destruct f2 as [|f2].
    + destruct x; [|simpl in H2; lia]. reflexivity.
    + simpl.
      destruct (String.eqb_spec x "") as [->|Hx]; [reflexivity|].
      destruct (String.eqb_spec y "") as [->|Hy]; [reflexivity|]. simpl.
      destruct (nextIdent (tail1 x)) as [dx x'] eqn:Ex.
      destruct (nextIdent (tail1 y)) as [dy y'].
      destruct (negb (dx =? dy)%string); [reflexivity|].
      pose proof (nextIdent_tail_length x dx x' Hx Ex).
      apply IH; lia.
Qed.

Lemma app_inv_head_str (a b c : string) : a +:+ b = a +:+ c → b = c.
Proof. induction a; simpl; intros H; [done|]. injection H. auto. Qed.

Lemma loop_antisym f : ∀ x y,
  (String.length x ≤ f)%nat → (String.length y ≤ f)%nat → x ≠ y →
  (x = "" ∨ y = "" ∨ ∃ c rx ry, x = String c rx ∧ y = String c ry) →
  comparePrereleaseLoop f y x = - comparePrereleaseLoop f x y.
Proof.
  induction f as [|f IH]; intros x y Hx Hy Hne Hhead.
  - destruct x; [|simpl in Hx; lia]. destruct y; [|simpl in Hy; lia]. done.
  - simpl.
    destruct (String.eqb_spec x "") as [->|Hx0];
      destruct (String.eqb_spec y "") as [->|Hy0]; simpl; try done.
    destruct Hhead as [?|[?|(c & rx & ry & -> & ->)]]; try done.
    simpl.
    destruct (nextIdent rx) as [dx x'] eqn:Ex.
    destruct (nextIdent ry) as [dy y'] eqn:Ey.
    pose proof (nextIdent_app _ _ _ Ex) as [Hrx Hx'].
    pose proof (nextIdent_app _ _ _ Ey) as [Hry Hy'].
    rewrite (String.eqb_sym dy dx).
    destruct (String.eqb_spec dx dy) as [<-|Hd]; simpl.
    + apply IH.
      * subst rx. simpl in Hx. rewrite length_app_str in Hx. lia.
      * subst ry. simpl in Hy. rewrite length_app_str in Hy. lia.
      * intros ->. apply Hne. congruence.
      * destruct Hx' as [->|[r1 ->]]; [auto|].
        destruct Hy' as [->|[r2 ->]]; [auto|]. right; right. eauto.
    + rewrite (ltb_antisym dx dy Hd).
      destruct (isNum dx), (isNum dy); simpl; try reflexivity.
      * destruct (Nat.ltb_spec (String.length dx) (String.length dy)),
          (Nat.ltb_spec (String.length dy) (String.length dx));
          try lia; try reflexivity.
        destruct (String.ltb dx dy); reflexivity.
      * destruct (String.ltb dx dy); reflexivity.
Qed.

Lemma scanPrerelease_acc v : ∀ acc cur t r,
  scanPrerelease acc cur v = Some (t, r) → ∃ s, t = acc +:+ s.
Proof.
  induction v as [|c v IH]; simpl; intros acc cur t r.
  - destruct (_ || _); [discriminate|]. intros [= <- <-]. exists "".
    clear. induction acc; simpl; congruence.
  - destruct (c =? "+")%char.
    { destruct (_ || _); [discriminate|]. intros [= <- <-]. exists "".
      clear. induction acc; simpl; congruence. }
    destruct (_ && _); [discriminate|].
    destruct (c =? ".")%char.
    + destruct (_ || _); [discriminate|]. intros H.
      apply IH in H as [s ->]. exists (String c s).
      clear. induction acc; simpl; congruence.
    + intros H. apply IH in H as [s ->]. exists (String c s).
      clear. induction acc; simpl; congruence.
Qed.

Lemma parseTail_prerelease ma mi pa v p :
  parseTail ma mi pa v = Some p →
  prerelease p = "" ∨ ∃ r, prerelease p = String "-" r.
Proof.
  unfold parseTail.
  assert (Hpre : ∀ pre v1,
    match v with
    | String "-" _ => parsePrerelease v
    | _ => Some ("", v)
    end = Some (pre, v1) → pre = "" ∨ ∃ r, pre = String "-" r).
  { intros pre v1. destruct v as [|c v']; [intros [= <- <-]; auto|].
    destruct (Ascii.eqb_spec c "-") as [->|Hc].
    - simpl. intros [s ->]%scanPrerelease_acc. right. eauto.
    - destruct c as [[] [] [] [] [] [] [] []];
        try (intros [= <- <-]; auto). done. }
  destruct (match v with String "-" _ => _ | _ => _ end)
    as [[pre v1]|]; [|discriminate].
  specialize (Hpre pre v1 eq_refl).
  destruct (match v1 with String "+" _ => _ | _ => _ end)
    as [[bld v2]|]; [|discriminate].
  destruct (v2 =? "")%string; [|discriminate].
  intros [= <-]. exact Hpre.
Qed.

(** The prerelease of a parsed version is empty or starts with a hyphen. *)
Lemma parse_prerelease v p :
  parse v = Some p → prerelease p = "" ∨ ∃ r, prerelease p = String "-" r.
Proof.
  unfold parse. intros H.
  repeat case_match; try discriminate;
    try (injection H as <-; simpl; auto; fail).
  all: eapply parseTail_prerelease; eassumption.
Qed.

Lemma comparePrerelease_antisym x y :
  (x = "" ∨ ∃ r, x = String "-" r) → (y = "" ∨ ∃ r, y = String "-" r) →
  comparePrerelease y x = - comparePrerelease x y.
Proof.
  intros Hx Hy. unfold comparePrerelease. rewrite (String.eqb_sym y x).
  destruct (String.eqb_spec x y) as [->|Hne]; [reflexivity|].
  destruct (String.eqb_spec x "") as [->|Hx0];
    destruct (String.eqb_spec y "") as [->|Hy0]; try done.
  destruct Hx as [?|[rx ->]]; [done|]. destruct Hy as [?|[ry ->]]; [done|].
  set (x := String "-" rx) in *. set (y := String "-" ry) in *.
  rewrite (loop_fuel (String.length y) (Nat.max (String.length x) (String.length y)) y x)
    by lia.
  rewrite (loop_fuel (String.length x) (Nat.max (String.length x) (String.length y)) x y)
    by lia.
  apply loop_antisym; [lia|lia|done|]. right; right. subst x y. eauto.
Qed.

(** Swapping the arguments of [Compare] negates the result. *)
Lemma Compare_antisym v w : Compare w v = - Compare v w.
Proof.
  unfold Compare.
  destruct (parse v) as [pv|] eqn:Ev, (parse w) as [pw|] eqn:Ew;
    try reflexivity.
  rewrite (compareInt_antisym (major pv) (major pw)).
  rewrite (compareInt_antisym (minor pv) (minor pw)).
  rewrite (compareInt_antisym (patch pv) (patch pw)).
  rewrite (comparePrerelease_antisym (prerelease pv) (prerelease pw))
    by eauto using parse_prerelease.
  repeat match goal with
  | |- context [negb (?a =? 0)] => destruct (Z.eqb_spec a 0)
  end; simpl; lia.
Qed.

End semver_facts.

(** The ordering on the examples of the semantic-versioning document. *)
Example Compare_ex1 : semver.Compare "v1.0.0" "v2.0.0" = -1. Proof. reflexivity. Qed.
Example Compare_ex2 : semver.Compare "" "v2.0.0" = -1. Proof. reflexivity. Qed.
Example Compare_ex3 : semver.Compare "v1.0.0-alpha" "v1.0.0" = -1. Proof. reflexivity. Qed.
Example Compare_ex4 : semver.Compare "v1.2" "v1.2.0" = 0. Proof. reflexivity. Qed.
Example Compare_ex5 : semver.Compare "v1.0.0-alpha.1" "v1.0.0-alpha.beta" = -1. Proof. reflexivity. Qed.
Example Compare_ex6 : semver.Compare "v1.0.0-beta.11" "v1.0.0-beta.2" = 1. Proof. reflexivity. Qed.
Example Compare_ex7 : semver.Compare "v1.10.0" "v1.9.0" = 1. Proof. reflexivity. Qed.
Example Compare_ex8 : semver.Compare "1.0.0" "" = 0. Proof. reflexivity. Qed.
Example Compare_ex9 : semver.Compare "v1.0.0+b1" "v1.0.0+b2" = 0. Proof. reflexivity. Qed.
Example Compare_ex10 : semver.Compare "v1.0.0-alpha" "v1.0.0-alpha.1" = -1. Proof. reflexivity. Qed.
Example Compare_ex11 : semver.Compare "v01.0.0" "v0.0.1" = -1. Proof. reflexivity. Qed.
Example Compare_ex12 : semver.Compare "v1.0.0-rc.1" "v1.0.0-beta.11" = 1. Proof. reflexivity. Qed.
Example Compare_ex13 : semver.Compare "v1.0.0" "" = 1. Proof. reflexivity. Qed.
Example IsValid_ex : semver.IsValid "v1.2.3-rc.1+build.5" = true. Proof. reflexivity. Qed.

(** ** Resolution of a value *)

Lemma firstContaining_Some overrides version o :
  firstContaining overrides version = Some o ↔
  ∃ l1 l2, overrides = l1 ++ o :: l2 ∧ contains o version = true
           ∧ Forall (λ p, contains p version = false) l1.
Proof.
  induction overrides as [|p rest IH]; simpl.
  - split; [discriminate|].
    intros (l1 & l2 & H & _). destruct l1; discriminate.
  - destruct (contains p version) eqn:Hp.
    + split.
      * intros [= <-]. exists [], rest. auto.
      * intros (l1 & l2 & H & Ho & Hl1).
        destruct l1 as [|q l1]; simpl in H; injection H as -> ->; [done|].
        apply Forall_cons in Hl1 as [Hq _]. congruence.
    + rewrite IH. split.
      * intros (l1 & l2 & -> & Ho & Hl1).
        exists (p :: l1), l2. auto.
      * intros (l1 & l2 & H & Ho & Hl1).
        destruct l1 as [|q l1]; simpl in H; injection H as -> ->.
        -- congruence.
        -- apply Forall_cons in Hl1 as [_ Hl1]. eauto.
Qed.

Lemma firstContaining_None overrides version :
  firstContaining overrides version = None ↔
  Forall (λ p, contains p version = false) overrides.
Proof.
  induction overrides as [|p rest IH]; simpl.
  - split; auto.
  - destruct (contains p version) eqn:Hp.
    + split; [discriminate|].
      intros [H _]%Forall_cons. congruence.
    + rewrite IH. split; [auto|]. by intros [_ H]%Forall_cons.
Qed.

(** C1. [GetValueAt] returns the default value of the toggle for the empty
    version; for any other version it returns the value of the override
    [GetOverride] finds, and the default value when it finds none.  A toggle
    with no override resolves to its default value for every version. *)
Theorem GetValueAt_resolves (t : Toggle) (version : string) :
  (version = "" → GetValueAt t version = Toggle.Value t)
  ∧ (version ≠ "" →
       ∀ o, GetOverride t version = Some o →
            GetValueAt t version = Override.Value o)
  ∧ (version ≠ "" → GetOverride t version = None →
       GetValueAt t version = Toggle.Value t)
  ∧ (Toggle.Overrides t = [] → GetValueAt t version = Toggle.Value t).
Proof.
  unfold GetValueAt.
  repeat split.
  - intros ->. reflexivity.
  - intros Hv o Ho. apply String.eqb_neq in Hv. rewrite Hv, Ho. reflexivity.
  - intros Hv Ho. rewrite Ho. by destruct (negb _).
  - intros Hnil. unfold GetOverride. rewrite Hnil. simpl.
    by destruct (negb _).
Qed.

Lemma GetValueAt_resolves_witness :
  GetValueAt samples.scenario "v1.2.0" = VBool false
  ∧ GetValueAt samples.scenario "v2.0.0" = VBool true
  ∧ GetValueAt samples.scenario "" = VBool true.
Proof.
  split; [|split].
  - exact (proj1 (proj2 (GetValueAt_resolves samples.scenario "v1.2.0"))
             ltac:(discriminate)
             (Override.mk "v1.0.0" "v1.5.0" (VBool false)) eq_refl).
  - apply (proj1 (proj2 (proj2 (GetValueAt_resolves samples.scenario "v2.0.0"))));
      [discriminate | reflexivity].
  - apply (proj1 (GetValueAt_resolves samples.scenario "")). reflexivity.
Defined.

(** ** Containment and the first match *)

Lemma contains_iff o version :
  contains o version = true ↔
  semver.Compare (Override.MinimumVersion o) version <= 0
  ∧ semver.Compare (Override.MaximumVersion o) version >= 0.
Proof.
  unfold contains. rewrite andb_true_iff, Z.leb_le, Z.geb_le. lia.
Qed.

(** C3, as the design words it, fails on the code: the override from v1.0.0
    with an empty maximum version does not contain v2.0.0, which lies above
    its minimum version. *)
Lemma contains_empty_maximum_counterexample :
  contains samples.openEnded "v2.0.0" = false
  ∧ containsAsSpecified samples.openEnded "v2.0.0".
Proof.
  split; [reflexivity|].
  split; [right|left; reflexivity].
  unfold semver_le. vm_compute. discriminate.
Qed.

(** C3, amended.  The range of an override contains a version exactly when
    its minimum version is lower than or equal to the version and the
    version is lower than or equal to its maximum version, in the order of
    [semver.Compare], which puts every string that is no version, the empty
    one included, below every version and level with every other such
    string.  So an empty minimum version bounds nothing, while an override
    with an empty maximum version contains a version only if both that
    version and its minimum version are no versions.  [GetOverride] returns
    the first override in stored order whose range contains the version, and
    none when no range contains it. *)
Theorem contains_and_GetOverride (o : Override) (t : Toggle)
    (version : string) :
  (contains o version = true ↔
     semver_le (Override.MinimumVersion o) version
     ∧ semver_le version (Override.MaximumVersion o))
  ∧ (Override.MinimumVersion o = "" →
       (contains o version = true ↔
          semver_le version (Override.MaximumVersion o)))
  ∧ (Override.MaximumVersion o = "" →
       (contains o version = true ↔
          semver.IsValid (Override.MinimumVersion o) = false
          ∧ semver.IsValid version = false))
  ∧ (∀ found, GetOverride t version = Some found ↔
       ∃ l1 l2, Toggle.Overrides t = l1 ++ found :: l2
                ∧ contains found version = true
                ∧ Forall (λ p, contains p version = false) l1)
  ∧ (GetOverride t version = None ↔
       Forall (λ p, contains p version = false) (Toggle.Overrides t)).
Proof.
  assert (Hle : contains o version = true ↔
     semver_le (Override.MinimumVersion o) version
     ∧ semver_le version (Override.MaximumVersion o)).
  { rewrite contains_iff. unfold semver_le.
    rewrite (semver_facts.Compare_antisym (Override.MaximumVersion o) version).
    lia. }
  split; [exact Hle|]. split; [|split; [|split]].
  - intros Hmin. rewrite Hle, Hmin. unfold semver_le.
    pose proof (semver_facts.Compare_empty_l_le version). tauto.
  - intros Hmax. rewrite contains_iff, Hmax.
    rewrite semver_facts.Compare_empty_l_ge. split.
    + intros [Hmin Hv]. split; [|exact Hv].
      rewrite (semver_facts.Compare_invalid_r _ _ Hv) in Hmin.
      destruct (semver.IsValid (Override.MinimumVersion o)); [lia|reflexivity].
    + intros [Hmin Hv]. split; [|exact Hv].
      rewrite (semver_facts.Compare_invalid_r _ _ Hv), Hmin. lia.
  - intros found. apply firstContaining_Some.
  - apply firstContaining_None.
Qed.

Lemma contains_and_GetOverride_witness :
  contains samples.openStart "v0.5.0" = true
  ∧ GetOverride samples.scenario "v1.2.0"
    = Some (Override.mk "v1.0.0" "v1.5.0" (VBool false))
  ∧ GetOverride samples.scenario "v2.0.0" = None.
Proof.
  split; [|split].
  - apply (proj1 (proj2
      (contains_and_GetOverride samples.openStart samples.scenario "v0.5.0")));
      [reflexivity|].
    unfold semver_le. vm_compute. discriminate.
  - apply (proj1 (proj2 (proj2 (proj2
      (contains_and_GetOverride samples.openStart samples.scenario "v1.2.0"))))).
    exists [], []. repeat split. constructor.
  - apply (proj2 (proj2 (proj2 (proj2
      (contains_and_GetOverride samples.openStart samples.scenario "v2.0.0"))))).
    repeat constructor.
Defined.

(** ** The type of a value *)

Lemma IsValidValue_nil t : IsValidValue t VNil = Panics.
Proof. reflexivity. Qed.

Lemma IsValidValue_true_iff t v :
  IsValidValue t v = Returns true ↔ typeMatches (Toggle.Type_ t) v.
Proof.
  destruct v; unfold IsValidValue; simpl;
    try (split; [discriminate|contradiction]).
  all: rewrite <- String.eqb_eq; split; [by intros [= ->]|by intros ->].
Qed.

Lemma IsValidValue_returns t v :
  v ≠ VNil → ∃ b, IsValidValue t v = Returns b.
Proof. destruct v; [done|..]; intros _; eexists; reflexivity. Qed.

Lemma IsValidValue_false_not_nil t v :
  IsValidValue t v = Returns false → v ≠ VNil.
Proof. intros H ->. discriminate. Qed.

(** ** Validation of a toggle *)

Lemma ascending_adjacent l :
  ascending l ↔
  ∀ a b, adjacent l a b →
    semver.Compare (Override.MaximumVersion a) (Override.MinimumVersion b) <= 0.
Proof.
  induction l as [|x l IH]; simpl.
  - split; [|done]. intros _ a b (l1 & l2 & H). destruct l1; discriminate.
  - destruct l as [|y r].
    + split; [|done]. intros _ a b (l1 & l2 & H).
      destruct l1 as [|? [|? ?]]; discriminate.
    + rewrite IH. split.
      * intros [Hxy Hr] a b (l1 & l2 & H).
        destruct l1 as [|z l1]; simpl in H.
        -- injection H as -> -> _. exact Hxy.
        -- injection H as _ H. apply Hr. by exists l1, l2.
      * intros H. split.
        -- apply H. by exists [], r.
        -- intros a b (l1 & l2 & Hab). apply H. exists (x :: l1), l2.
           simpl. by rewrite Hab.
Qed.

Lemma chain_ascending_tail prev x l :
  ascending (chain prev (x :: l)) → ascending (x :: l).
Proof. destruct prev; simpl; tauto. Qed.

Lemma chain_adjacent_tail prev x l a b :
  adjacent (x :: l) a b → adjacent (chain prev (x :: l)) a b.
Proof.
  destruct prev as [p|]; [|done]. intros (l1 & l2 & H).
  exists (p :: l1), l2. simpl. by rewrite H.
Qed.

(** When the loop returns no error the overrides are in ascending order and
    their values have the declared type. *)
Lemma validateOverrides_None t l : ∀ prev,
  validateOverrides t prev l = Returns None →
  ascending (chain prev l) ∧ overridesTyped t l.
Proof.
  induction l as [|x l IH]; intros prev; simpl.
  - intros _. split; [by destruct prev|constructor].
  - destruct prev as [p|]; simpl.
    + destruct (Z.eqb_spec
        (semver.Compare (Override.MaximumVersion p) (Override.MinimumVersion x)) 1)
        as [|Hne]; [discriminate|].
      destruct (IsValidValue t (Override.Value x)) as [[|]|] eqn:Hx;
        try discriminate.
      intros [Hasc Hty]%IH. split; [|by constructor].
      split; [|exact Hasc].
      destruct (semver_facts.Compare_sign (Override.MaximumVersion p)
                  (Override.MinimumVersion x)) as [E|[E|E]]; lia.
    + destruct (IsValidValue t (Override.Value x)) as [[|]|] eqn:Hx;
        try discriminate.
      intros [Hasc Hty]%IH. split; [exact Hasc|by constructor].
Qed.

(** On overrides whose values have the declared type the loop returns no
    error, or the overlap error of two adjacent overrides. *)
Lemma validateOverrides_typed t l : ∀ prev,
  overridesTyped t l →
  validateOverrides t prev l = Returns None
  ∨ ∃ a b, adjacent (chain prev l) a b
      ∧ semver.Compare (Override.MaximumVersion a) (Override.MinimumVersion b) = 1
      ∧ validateOverrides t prev l
        = Returns (Some (OverrideOverlap (Override.MaximumVersion a)
                           (Override.MinimumVersion b))).
Proof.
  induction l as [|x l IH]; intros prev Hty; simpl; [by left|].
  apply Forall_cons in Hty as [Hx Hty].
  assert (Hrest : validateOverrides t (Some x) l = Returns None
    ∨ ∃ a b, adjacent (chain prev (x :: l)) a b
      ∧ semver.Compare (Override.MaximumVersion a) (Override.MinimumVersion b) = 1
      ∧ validateOverrides t (Some x) l
        = Returns (Some (OverrideOverlap (Override.MaximumVersion a)
                           (Override.MinimumVersion b)))).
  { destruct (IH (Some x) Hty) as [H|(a & b & Hab & Hc & H)]; [by left|].
    right. exists a, b. split; [|done]. by apply chain_adjacent_tail. }
  destruct prev as [p|]; simpl.
  - destruct (Z.eqb_spec
      (semver.Compare (Override.MaximumVersion p) (Override.MinimumVersion x)) 1)
      as [E|Hne].
    + right. exists p, x. split; [by exists [], l|done].
    + by rewrite Hx.
  - by rewrite Hx.
Qed.

(** The loop panics when it reaches an override whose value is nil. *)
Lemma validateOverrides_reaches_nil t l1 o l2 : ∀ prev,
  Override.Value o = VNil → overridesTyped t l1 →
  ascending (chain prev (l1 ++ [o])) →
  validateOverrides t prev (l1 ++ o :: l2) = Panics.
Proof.
  intros prev Ho. revert prev.
  assert (Hstep : ∀ prev x l,
    ascending (chain prev (x :: l)) →
    match prev with
    | Some p =>
        semver.Compare (Override.MaximumVersion p) (Override.MinimumVersion x) =? 1
    | None => false
    end = false).
  { intros [p|] x l; simpl; [|done]. intros [H _]. apply Z.eqb_neq. lia. }
  induction l1 as [|x l1 IH]; intros prev Hty Hasc; simpl in *.
  - rewrite (Hstep _ _ _ Hasc), Ho. reflexivity.
  - apply Forall_cons in Hty as [Hx Hty].
    rewrite (Hstep _ _ _ Hasc), Hx. apply IH; [done|].
    apply chain_ascending_tail in Hasc. exact Hasc.
Qed.

(** The loop never reports a nil value as a value of the wrong type. *)
Lemma validateOverrides_mismatch t l : ∀ prev v type name,
  validateOverrides t prev l
    = Returns (Some (OverrideValueNotOfType v type name)) →
  IsValidValue t v = Returns false.
Proof.
  induction l as [|x l IH]; intros prev v type name; simpl; [discriminate|].
  destruct (match prev with Some _ => _ | None => _ end); [discriminate|].
  destruct (IsValidValue t (Override.Value x)) as [[|]|] eqn:Hx;
    [apply IH | | discriminate].
  by intros [= <- _ _].
Qed.

Lemma validate_wellTyped t :
  wellTyped t → validate t = validateOverrides t None (Toggle.Overrides t).
Proof. intros [Hv _]. unfold validate. by rewrite Hv. Qed.

(** C2, as stated, fails on the code.  In [samples.three] the override A1
    stands before B1 and ends before B1 starts, and validation fails all the
    same, on the pair that follows.  In [samples.mistyped] the two overrides
    are in order and validation fails on the type of a value.  In
    [samples.detour] A5 stands before B5 and ends after B5 starts, and
    validation succeeds, because the two are not adjacent. *)
Lemma validate_any_pair_counterexample :
  (before (Toggle.Overrides samples.three) samples.A1 samples.B1
   ∧ semver.Compare (Override.MaximumVersion samples.A1)
       (Override.MinimumVersion samples.B1) = -1
   ∧ validate samples.three
     = Returns (Some (OverrideOverlap "v9.0.0" "v5.0.0")))
  ∧ (Toggle.Overrides samples.mistyped = [samples.A2; samples.B2]
     ∧ semver.Compare (Override.MaximumVersion samples.A2)
         (Override.MinimumVersion samples.B2) = -1
     ∧ validate samples.mistyped
       = Returns (Some (OverrideValueNotOfType (VString "off") booleanType
                          "mistyped")))
  ∧ (before (Toggle.Overrides samples.detour) samples.A5 samples.B5
     ∧ semver.Compare (Override.MaximumVersion samples.A5)
         (Override.MinimumVersion samples.B5) = 1
     ∧ validate samples.detour = Returns None).
Proof.
  repeat split.
  - by exists [], [], [samples.C1].
  - by exists [], [samples.C5], [].
Qed.

(** C2, amended.  For a toggle whose value and override values have the
    declared type, validation fails exactly when some override is
    immediately followed by one whose minimum version is lower than its
    maximum version, that is when [semver.Compare] of the two is greater
    than zero; it succeeds exactly when no adjacent pair is so.  For a
    toggle with the two overrides A and B, validation fails if and only if
    the comparison of A's maximum version with B's minimum version is
    greater than zero, and succeeds when it is equal or lower. *)
Theorem validate_fails_iff_adjacent_overlap (t : Toggle) :
  wellTyped t →
  (failed (validate t) ↔
     ∃ a b, adjacent (Toggle.Overrides t) a b
       ∧ semver.Compare (Override.MaximumVersion a)
           (Override.MinimumVersion b) > 0)
  ∧ (validate t = Returns None ↔
       ∀ a b, adjacent (Toggle.Overrides t) a b →
         semver.Compare (Override.MaximumVersion a)
           (Override.MinimumVersion b) <= 0)
  ∧ (∀ A B, Toggle.Overrides t = [A; B] →
       (failed (validate t) ↔
          semver.Compare (Override.MaximumVersion A)
            (Override.MinimumVersion B) > 0)
       ∧ (semver.Compare (Override.MaximumVersion A)
            (Override.MinimumVersion B) <= 0 → validate t = Returns None)).
Proof.
  intros Hwt. rewrite (validate_wellTyped t Hwt).
  destruct Hwt as [_ Hty].
  pose proof (validateOverrides_typed t (Toggle.Overrides t) None Hty)
    as Hcases.
  pose proof (validateOverrides_None t (Toggle.Overrides t) None) as Hnone.
  simpl in Hcases, Hnone. rewrite ascending_adjacent in Hnone.
  assert (Hfail : failed (validateOverrides t None (Toggle.Overrides t)) ↔
     ∃ a b, adjacent (Toggle.Overrides t) a b
       ∧ semver.Compare (Override.MaximumVersion a)
           (Override.MinimumVersion b) > 0).
  { split.
    - intros [e He]. destruct Hcases as [H|(a & b & Hab & Hc & _)].
      + rewrite H in He. discriminate.
      + exists a, b. split; [done|lia].
    - intros (a & b & Hab & Hc).
      destruct Hcases as [H|(a' & b' & _ & _ & H)].
      + destruct (Hnone H) as [Hasc _]. specialize (Hasc a b Hab). lia.
      + eexists. exact H. }
  assert (Hok : validateOverrides t None (Toggle.Overrides t) = Returns None ↔
     ∀ a b, adjacent (Toggle.Overrides t) a b →
       semver.Compare (Override.MaximumVersion a)
         (Override.MinimumVersion b) <= 0).
  { split.
    - intros H. by destruct (Hnone H).
    - intros Hall. destruct Hcases as [H|(a & b & Hab & Hc & _)]; [done|].
      specialize (Hall a b Hab). lia. }
  split; [exact Hfail|]. split; [exact Hok|].
  intros A B HAB. split.
  - rewrite Hfail. split.
    + intros (a & b & (l1 & l2 & Hab) & Hc). rewrite HAB in Hab.
      destruct l1 as [|? [|? [|? ?]]]; try discriminate.
      by injection Hab as -> -> _.
    + intros Hc. exists A, B. split; [|done]. exists [], []. by rewrite HAB.
  - intros Hc. apply Hok. intros a b (l1 & l2 & Hab). rewrite HAB in Hab.
    destruct l1 as [|? [|? [|? ?]]]; try discriminate.
    by injection Hab as -> -> _.
Qed.

Lemma samples_overlapping_wellTyped : wellTyped samples.overlapping.
Proof. split; [reflexivity|repeat constructor]. Qed.

Lemma samples_scenario_wellTyped : wellTyped samples.scenario.
Proof. split; [reflexivity|repeat constructor]. Qed.

Lemma validate_fails_iff_adjacent_overlap_witness :
  wellTyped samples.overlapping
  ∧ failed (validate samples.overlapping)
  ∧ validate samples.scenario = Returns None.
Proof.
  split; [exact samples_overlapping_wellTyped|]. split.
  - apply (proj1 (validate_fails_iff_adjacent_overlap samples.overlapping
                    samples_overlapping_wellTyped)).
    exists samples.A4, samples.B4. split; [by exists [], []|reflexivity].
  - apply (proj1 (proj2 (validate_fails_iff_adjacent_overlap samples.scenario
                           samples_scenario_wellTyped))).
    intros a b (l1 & l2 & H). destruct l1 as [|? [|? ?]]; discriminate.
Defined.

(** C4, as stated, fails on the code: [samples.touching] passes validation
    and its first override ends at the version its second one starts at, so
    its maximum version is not lower than the next minimum version. *)
Lemma validate_touching_counterexample :
  validate samples.touching = Returns None
  ∧ adjacent (Toggle.Overrides samples.touching) samples.A3 samples.B3
  ∧ semver.Compare (Override.MaximumVersion samples.A3)
      (Override.MinimumVersion samples.B3) = 0.
Proof. repeat split. by exists [], []. Qed.

(** C4, amended.  In a toggle that passes validation every override ends no
    later than the next one starts: for two consecutive overrides, the
    maximum version of the first is lower than or equal to the minimum
    version of the second.  The ranges are in ascending order and two
    consecutive ones share at most an endpoint. *)
Theorem validate_ascending (t : Toggle) :
  validate t = Returns None →
  ∀ prev next, adjacent (Toggle.Overrides t) prev next →
    semver_le (Override.MaximumVersion prev) (Override.MinimumVersion next).
Proof.
  unfold validate.
  destruct (IsValidValue t (Toggle.Value t)) as [[|]|]; try discriminate.
  intros [Hasc _]%validateOverrides_None. simpl in Hasc.
  by apply ascending_adjacent.
Qed.

Lemma validate_ascending_witness :
  semver_le (Override.MaximumVersion samples.A3)
    (Override.MinimumVersion samples.B3).
Proof.
  apply (validate_ascending samples.touching eq_refl samples.A3 samples.B3).
  by exists [], [].
Defined.

(** ** Values that are nil *)

(** C5.  On every value that is not nil [IsValidValue] returns, and it
    returns true exactly for a bool under the type boolean, a string under
    the type string and a float64 under the type number; under the type
    custom it returns false.  On the nil value it does not return: it
    panics, also under the type custom, where the design has it return
    false. *)
Theorem IsValidValue_pairing :
  (∀ t v, IsValidValue t v = Returns true ↔ typeMatches (Toggle.Type_ t) v)
  ∧ (∀ t v, v ≠ VNil → Toggle.Type_ t = customType →
       IsValidValue t v = Returns false)
  ∧ IsValidValue samples.nullValue VNil = Panics
  ∧ IsValidValue samples.nullValue VNil ≠ Returns false.
Proof.
  split; [exact IsValidValue_true_iff|]. split; [|by split].
  intros t v Hv Ht.
  destruct (IsValidValue_returns t v Hv) as [[|] H]; [|exact H].
  apply IsValidValue_true_iff in H. rewrite Ht in H.
  destruct v; simpl in H; try contradiction; discriminate.
Qed.

(** C9.  [IsValidValue] does not return on the nil value: it panics.  So
    does the validation of a toggle whose value is nil, the validation of a
    toggle in which an override with a nil value is reached, all that comes
    before it being in order, and [UnmarshalJSON] on a document decoded to
    such a toggle.  No error about the type of a value ever names a nil
    value. *)
Theorem IsValidValue_nil_panics :
  (∀ t, IsValidValue t VNil = Panics)
  ∧ (∀ t, Toggle.Value t = VNil → validate t = Panics)
  ∧ (∀ t l1 o l2,
       Toggle.Overrides t = l1 ++ o :: l2 → Override.Value o = VNil →
       IsValidValue t (Toggle.Value t) = Returns true →
       overridesTyped t l1 → ascending (l1 ++ [o]) →
       validate t = Panics)
  ∧ (∀ decode b t,
       decode b = inr t → Toggle.Value t = VNil →
       UnmarshalJSON decode b = (Some t, Panics))
  ∧ (∀ t type name,
       validate t ≠ Returns (Some (ValueNotOfType VNil type name))
       ∧ validate t ≠ Returns (Some (OverrideValueNotOfType VNil type name))).
Proof.
  assert (Hnil : ∀ t, Toggle.Value t = VNil → validate t = Panics).
  { intros t Hv. unfold validate. rewrite Hv. reflexivity. }
  split; [exact IsValidValue_nil|]. split; [exact Hnil|].
  split; [|split].
  - intros t l1 o l2 Hl Ho Hv Hty Hasc. unfold validate. rewrite Hv, Hl.
    by apply validateOverrides_reaches_nil.
  - intros decode b t Hd Hv. unfold UnmarshalJSON. rewrite Hd.
    by rewrite (Hnil t Hv).
  - intros t type name. unfold validate.
    destruct (IsValidValue t (Toggle.Value t)) as [[|]|] eqn:Hv.
    + split; intros H.
      * clear Hv. revert H. generalize (@None Override).
        induction (Toggle.Overrides t) as [|x l IH]; intros prev; simpl;
          [discriminate|].
        destruct (match prev with Some _ => _ | None => _ end);
          [discriminate|].
        destruct (IsValidValue t (Override.Value x)) as [[|]|];
          [apply IH|discriminate..].
      * apply validateOverrides_mismatch in H. discriminate.
    + split; [|discriminate]. intros [= Hnilv _ _].
      rewrite Hnilv in Hv. discriminate.
    + split; discriminate.
Qed.

Lemma IsValidValue_nil_panics_witness :
  validate samples.nullValue = Panics
  ∧ validate samples.nullOverride = Panics.
Proof.
  split.
  - exact (proj1 (proj2 IsValidValue_nil_panics) samples.nullValue eq_refl).
  - apply (proj1 (proj2 (proj2 IsValidValue_nil_panics)) samples.nullOverride
             [samples.A1] (Override.mk "v3.0.0" "v4.0.0" VNil) [samples.C1]);
      try reflexivity.
    + repeat constructor.
    + simpl. split; [|exact I]. vm_compute. discriminate.
Defined.

(** ** The walk of [compile] *)

(** Induction on a tree of chambers, with the property known for every
    child. *)
Lemma Chamber_tree_ind (P : Chamber → Prop) :
  (∀ name buildable app toggles children,
     Forall P children → P (mkChamber name buildable app toggles children)) →
  ∀ c, P c.
Proof.
  intros step. fix IH 1. intros [name buildable app toggles children].
  apply step. induction children as [|x r IHr]; constructor.
  - apply IH.
  - exact IHr.
Qed.

Lemma compileFrom_setToggles toggles c :
  compileFrom toggles c = compile (setToggles c toggles).
Proof. by destruct c. Qed.

(** One step of the walk, in the shape of the source. *)
Lemma compile_unfold parent :
  compile parent =
  let written :=
    if Buildable parent || App parent
    then [WriteChamberToFile ("./" +:+ Name parent +:+ ".json") parent true]
    else [] in
  let walks :=
    map (λ child,
           compile (setToggles child (InheritWith child (Toggles parent))))
        (Children parent) in
  (written ++ concat (map fst walks),
   mkChamber (Name parent) (Buildable parent) (App parent) (Toggles parent)
     (map snd walks)).
Proof.
  destruct parent as [name buildable app toggles children].
  unfold compile. simpl.
  assert (Hwalks :
    map (λ child, compileFrom (InheritWith child toggles) child) children
    = map (λ child, compile (setToggles child (InheritWith child toggles)))
        children).
  { apply map_ext. intros child. apply compileFrom_setToggles. }
  by rewrite Hwalks.
Qed.

Lemma filter_concat {A : Type} (f : A → bool) (ls : list (list A)) :
  List.filter f (concat ls) = concat (map (List.filter f) ls).
Proof.
  induction ls as [|l ls IH]; simpl; [done|].
  by rewrite List.filter_app, IH.
Qed.

(** The files written are those of the flagged nodes of the tree the walk
    leaves, depth first, each with the toggles of its node. *)
Lemma compileFrom_preorder c : ∀ toggles,
  map (λ w, (file w, Toggles (chamber w))) (fst (compileFrom toggles c))
  = map artifact (List.filter flagged (preorder (snd (compileFrom toggles c)))).
Proof.
  induction c as [name buildable app own children IH]
    using Chamber_tree_ind.
  intros toggles. simpl.
  set (walks := map (λ child, compileFrom (InheritWith child toggles) child)
                  children).
  assert (Hrest :
    map (λ w, (file w, Toggles (chamber w))) (concat (map fst walks))
    = map artifact
        (List.filter flagged (concat (map preorder (map snd walks))))).
  { subst walks. rewrite filter_concat, !concat_map, !map_map. f_equal.
    induction IH as [|x r Hx _ IHr]; simpl; [done|]. by rewrite Hx, IHr. }
  unfold flagged at 1. simpl. rewrite map_app, Hrest.
  by destruct (buildable || app).
Qed.

Lemma compileFrom_Toggles toggles c :
  Toggles (snd (compileFrom toggles c)) = toggles.
Proof. by destruct c. Qed.

(** C8.  [compile] walks the tree depth first.  At a node it writes, when
    the flag buildable or the flag app is set, the node with the toggles it
    holds at that moment to the file named after it; then, for each child in
    stored order, it replaces the toggles of the child by
    [child.InheritWith] of the toggles of the node and walks the child.  So
    the files written are those of the flagged nodes in depth-first order,
    each with the toggles its node ends with; the toggles of the root are
    left as they are, and every child ends with what it inherits from the
    toggles of its parent. *)
Theorem compile_depth_first (parent : Chamber) :
  compile parent =
    (let written :=
       if Buildable parent || App parent
       then [WriteChamberToFile ("./" +:+ Name parent +:+ ".json") parent true]
       else [] in
     let walks :=
       map (λ child,
              compile (setToggles child (InheritWith child (Toggles parent))))
           (Children parent) in
     (written ++ concat (map fst walks),
      mkChamber (Name parent) (Buildable parent) (App parent)
        (Toggles parent) (map snd walks)))
  ∧ map (λ w, (file w, Toggles (chamber w))) (fst (compile parent))
    = map artifact (List.filter flagged (preorder (snd (compile parent))))
  ∧ Toggles (snd (compile parent)) = Toggles parent
  ∧ Forall2 (λ child built,
               Toggles built = InheritWith child (Toggles parent))
      (Children parent) (Children (snd (compile parent))).
Proof.
  split; [apply compile_unfold|]. split; [apply compileFrom_preorder|].
  split; [apply compileFrom_Toggles|].
  destruct parent as [name buildable app toggles children].
  unfold compile. simpl. induction children as [|x r IH]; simpl.
  - constructor.
  - constructor; [apply compileFrom_Toggles|exact IH].
Qed.

(** The walk of the sample tree: the root is not flagged and writes nothing;
    the middle chamber keeps its own value of the toggle dark and inherits
    the toggle limit; the leaf inherits both from the middle chamber. *)
Example compile_tree :
  map file (fst (compile tree.root)) = ["./middle.json"; "./leaf.json"]
  ∧ map (λ w, Toggles (chamber w) !! "dark") (fst (compile tree.root))
    = [Some tree.off; Some tree.off]
  ∧ map (λ w, Toggles (chamber w) !! "limit") (fst (compile tree.root))
    = [Some tree.limit; Some tree.limit]
  ∧ map (λ w, map Toggles (Children (chamber w))) (fst (compile tree.root))
    = [[∅]; []].
Proof. repeat split. Qed.

(** ** The handler *)

Lemma handleResponse_eq statusCode data error :
  handleResponse statusCode data error
  = mkResponse "application/json" statusCode
      (mkOperationResponse data error).
Proof.
  unfold handleResponse.
  destruct (String.eqb_spec error "") as [->|_]; by destruct data.
Qed.

Section handle_facts.

Context {S : Type} `{!storage.Storage S}.
Variable json_Unmarshal_Chamber : list Byte.byte → Result (error + Chamber).
Variable ReadInterfaceWith : list Byte.byte → nat * Result (error + Chamber).

#[local] Abbreviation serve :=
  (handle json_Unmarshal_Chamber ReadInterfaceWith).

(** C6.  On a GET request: for the path "/" the handler answers 404 and
    makes no call on the backend, whatever its state; when [Get] fails with
    a not-found error it answers 404 with the text of that status; when
    [Get] fails otherwise it answers 404 with the message of the error;
    when the bytes of the entry do not decode to a chamber it answers 500
    with the text of that status; and when they decode it answers 200 with
    the chamber as data. *)
Theorem handle_GET (r : Request) (σ : World S) :
  Method r = "GET" →
  let path := TrimPrefix (URL_Path r) "/v1" in
  (path = "/" →
     serve r σ
     = (mkWorld (strg σ) (calls σ)
          (logged σ ++ ["path cannot be " +:+ Sprintf_q "/"]),
        Returns (mkResponse "application/json" 404
                   (mkOperationResponse nil_any
                      ("path cannot be " +:+ Sprintf_q "/")))))
  ∧ (path ≠ "/" → ∀ s' err,
       storage.Get (strg σ) path = (s', inl err) →
       AsNotFoundError err = true →
       serve r σ
       = (mkWorld s' (calls σ ++ [CallGet path]) (logged σ ++ [Error err]),
          Returns (mkResponse "application/json" 404
                     (mkOperationResponse nil_any "Not Found"))))
  ∧ (path ≠ "/" → ∀ s' err,
       storage.Get (strg σ) path = (s', inl err) →
       AsNotFoundError err = false →
       serve r σ
       = (mkWorld s' (calls σ ++ [CallGet path]) (logged σ ++ [Error err]),
          Returns (mkResponse "application/json" 404
                     (mkOperationResponse nil_any (Error err)))))
  ∧ (path ≠ "/" → ∀ s' entry err,
       storage.Get (strg σ) path = (s', inr entry) →
       json_Unmarshal_Chamber (storage.Value entry) = Returns (inl err) →
       serve r σ
       = (mkWorld s' (calls σ ++ [CallGet path]) (logged σ ++ [Error err]),
          Returns (mkResponse "application/json" 500
                     (mkOperationResponse nil_any "Internal Server Error"))))
  ∧ (path ≠ "/" → ∀ s' entry c,
       storage.Get (strg σ) path = (s', inr entry) →
       json_Unmarshal_Chamber (storage.Value entry) = Returns (inr c) →
       serve r σ
       = (mkWorld s' (calls σ ++ [CallGet path]) (logged σ),
          Returns (mkResponse "application/json" 200
                     (mkOperationResponse (chamber_any c) "")))).
Proof.
  intros Hm path. unfold handle. rewrite Hm. simpl.
  fold path. repeat split.
  - intros ->. simpl. by rewrite handleResponse_eq.
  - intros Hp s' err HG Hnf. apply String.eqb_neq in Hp. rewrite Hp.
    unfold strg_Get. rewrite HG. simpl. by rewrite Hnf, handleResponse_eq.
  - intros Hp s' err HG Hnf. apply String.eqb_neq in Hp. rewrite Hp.
    unfold strg_Get. rewrite HG. simpl. by rewrite Hnf, handleResponse_eq.
  - intros Hp s' entry err HG HU. apply String.eqb_neq in Hp. rewrite Hp.
    unfold strg_Get. rewrite HG. simpl. by rewrite HU, handleResponse_eq.
  - intros Hp s' entry c HG HU. apply String.eqb_neq in Hp. rewrite Hp.
    unfold strg_Get. rewrite HG. simpl. by rewrite HU, handleResponse_eq.
Qed.

(** C7.  On a POST request, with a reader that returns [io.EOF] on an empty
    body: when the body does not decode to a chamber the handler answers
    400 and makes no call on the backend, and the message is the one for an
    empty body when the body is empty; when it decodes, the handler puts one
    entry, under the key made of the path, ended by a slash, and the name of
    the chamber, and answers 500 with the message of the error when [Put]
    fails, and 201 with neither data nor error when it succeeds. *)
Theorem handle_POST (r : Request) (σ : World S) :
  Method r = "POST" →
  (∃ n err, ReadInterfaceWith [] = (n, Returns (inl err))
            ∧ IsEOF err = true) →
  let path := TrimPrefix (URL_Path r) "/v1" in
  let body := Request_Body r in
  (∀ n err, ReadInterfaceWith body = (n, Returns (inl err)) →
     serve r σ
     = (mkWorld (strg σ) (calls σ) (logged σ ++ [Error err]),
        Returns (mkResponse "application/json" 400
                   (mkOperationResponse nil_any
                      (if IsEOF err then "Request body must not be empty"
                       else "Bad Request")))))
  ∧ (body = [] →
       strg (fst (serve r σ)) = strg σ
       ∧ calls (fst (serve r σ)) = calls σ
       ∧ snd (serve r σ)
         = Returns (mkResponse "application/json" 400
                      (mkOperationResponse nil_any
                         "Request body must not be empty")))
  ∧ (∀ n c, ReadInterfaceWith body = (n, Returns (inr c)) →
       let entry :=
         storage.mkEntry (EnsureTrailingSlash path +:+ Name c)
           (take n body) in
       (∀ s' err, storage.Put (strg σ) entry = (s', Some err) →
          serve r σ
          = (mkWorld s' (calls σ ++ [CallPut entry])
               (logged σ ++ [Error err]),
             Returns (mkResponse "application/json" 500
                        (mkOperationResponse nil_any (Error err)))))
       ∧ (∀ s', storage.Put (strg σ) entry = (s', None) →
            serve r σ
            = (mkWorld s' (calls σ ++ [CallPut entry]) (logged σ),
               Returns (mkResponse "application/json" 201
                          (mkOperationResponse nil_any ""))))).
Proof.
  intros Hm Hempty path body.
  assert (Hfail : ∀ n err, ReadInterfaceWith body = (n, Returns (inl err)) →
     serve r σ
     = (mkWorld (strg σ) (calls σ) (logged σ ++ [Error err]),
        Returns (mkResponse "application/json" 400
                   (mkOperationResponse nil_any
                      (if IsEOF err then "Request body must not be empty"
                       else "Bad Request"))))).
  { intros n err HR. unfold handle. rewrite Hm. simpl.
    fold body. rewrite HR. rewrite handleResponse_eq.
    by destruct (IsEOF err). }
  split; [exact Hfail|]. split.
  - intros Hb. destruct Hempty as (n & err & HR & Heof).
    rewrite <- Hb in HR. rewrite (Hfail n err HR), Heof. done.
  - intros n c HR entry. unfold handle. rewrite Hm. simpl.
    fold body path. rewrite HR. unfold TeeReader_buf, strg_Put. fold entry.
    split.
    + intros s' err HP. rewrite HP. simpl. by rewrite handleResponse_eq.
    + intros s' HP. rewrite HP. simpl. by rewrite handleResponse_eq.
Qed.

(** C10.  On a POST request that succeeds, the bytes of the entry put in
    the backend are the bytes that were read from the body of the request
    while it was decoded, as they stand: the whole body when the reader
    took it to its end.  They are not made from the decoded chamber: a
    reader that takes as many bytes and decodes them to another chamber of
    the same name leaves the handler with the same entry and the same
    answer. *)
Theorem handle_POST_stores_the_bytes_read (r : Request) (σ : World S)
    (n : nat) (c : Chamber) (s' : S) :
  Method r = "POST" →
  let path := TrimPrefix (URL_Path r) "/v1" in
  let body := Request_Body r in
  let entry :=
    storage.mkEntry (EnsureTrailingSlash path +:+ Name c) (take n body) in
  ReadInterfaceWith body = (n, Returns (inr c)) →
  storage.Put (strg σ) entry = (s', None) →
  serve r σ
  = (mkWorld s' (calls σ ++ [CallPut entry]) (logged σ),
     Returns (mkResponse "application/json" 201
                (mkOperationResponse nil_any "")))
  ∧ storage.Value entry = take n body
  ∧ (∃ unread, body = storage.Value entry ++ unread)
  ∧ ((length body ≤ n)%nat → storage.Value entry = body)
  ∧ (∀ (ReadOtherwise : list Byte.byte → nat * Result (error + Chamber)) c',
       ReadOtherwise body = (n, Returns (inr c')) → Name c' = Name c →
       handle json_Unmarshal_Chamber ReadOtherwise r σ = serve r σ).
Proof.
  intros Hm path body entry HR HP.
  assert (Hserve : ∀ R c0,
    R body = (n, Returns (inr c0)) → Name c0 = Name c →
    handle json_Unmarshal_Chamber R r σ
    = (mkWorld s' (calls σ ++ [CallPut entry]) (logged σ),
       Returns (mkResponse "application/json" 201
                  (mkOperationResponse nil_any "")))).
  { intros R c0 HR0 Hname. unfold handle. rewrite Hm. simpl.
    fold body path. rewrite HR0, Hname. unfold TeeReader_buf, strg_Put.
    fold entry. rewrite HP. simpl. by rewrite handleResponse_eq. }
  split; [by apply (Hserve ReadInterfaceWith c)|].
  split; [done|]. split; [|split].
  - exists (drop n body). simpl. by rewrite take_drop.
  - intros Hn. simpl. by apply take_ge.
  - intros R c' HR' Hname.
    rewrite (Hserve R c' HR' Hname).
    by rewrite (Hserve ReadInterfaceWith c HR eq_refl).
Qed.

End handle_facts.

(** The scenarios of section 8 on the sample backend. *)

Lemma handle_GET_witness :
  snd (handle memory.json_Unmarshal_Chamber memory.ReadInterfaceWith
         memory.get memory.stored)
  = Returns (mkResponse "application/json" 200
               (mkOperationResponse (chamber_any memory.billing) ""))
  ∧ handle memory.json_Unmarshal_Chamber memory.ReadInterfaceWith
      memory.getRoot memory.stored
    = (mkWorld (strg memory.stored) []
         ["path cannot be " +:+ Sprintf_q "/"],
       Returns (mkResponse "application/json" 404
                  (mkOperationResponse nil_any
                     ("path cannot be " +:+ Sprintf_q "/")))).
Proof.
  split.
  - erewrite (proj2 (proj2 (proj2 (proj2
      (handle_GET memory.json_Unmarshal_Chamber memory.ReadInterfaceWith
         memory.get memory.stored eq_refl)))));
      [reflexivity | discriminate | reflexivity | reflexivity].
  - apply (proj1
      (handle_GET memory.json_Unmarshal_Chamber memory.ReadInterfaceWith
         memory.getRoot memory.stored eq_refl)).
    reflexivity.
Defined.

Lemma memory_ReadInterfaceWith_empty :
  ∃ n err, memory.ReadInterfaceWith [] = (n, Returns (inl err))
           ∧ IsEOF err = true.
Proof. by exists 0%nat, memory.EOF. Qed.

Lemma handle_POST_witness :
  snd (handle memory.json_Unmarshal_Chamber memory.ReadInterfaceWith
         memory.postNothing memory.empty)
  = Returns (mkResponse "application/json" 400
               (mkOperationResponse nil_any "Request body must not be empty"))
  ∧ calls (fst (handle memory.json_Unmarshal_Chamber memory.ReadInterfaceWith
                  memory.post memory.empty))
    = [CallPut (storage.mkEntry "/acme/billing"
                  (list_byte_of_string memory.billingDocument))]
  ∧ snd (handle memory.json_Unmarshal_Chamber memory.ReadInterfaceWith
           memory.post memory.empty)
    = Returns (mkResponse "application/json" 201
                 (mkOperationResponse nil_any "")).
Proof.
  split.
  - apply (proj1 (proj2
      (handle_POST memory.json_Unmarshal_Chamber memory.ReadInterfaceWith
         memory.postNothing memory.empty eq_refl
         memory_ReadInterfaceWith_empty))).
    reflexivity.
  - pose proof (proj2 (proj2 (proj2
      (handle_POST memory.json_Unmarshal_Chamber memory.ReadInterfaceWith
         memory.post memory.empty eq_refl memory_ReadInterfaceWith_empty))
      (length (list_byte_of_string memory.billingDocument)) memory.billing
      eq_refl) _ eq_refl) as H.
    rewrite H. split; reflexivity.
Defined.

Lemma handle_POST_stores_the_bytes_read_witness :
  calls (fst (handle memory.json_Unmarshal_Chamber memory.ReadInterfaceWith
                memory.post memory.empty))
  = [CallPut (storage.mkEntry "/acme/billing"
                (Request_Body memory.post))].
Proof.
  pose proof (proj1
    (handle_POST_stores_the_bytes_read memory.json_Unmarshal_Chamber
       memory.ReadInterfaceWith memory.post memory.empty
       (length (Request_Body memory.post)) memory.billing _
       eq_refl eq_refl eq_refl)) as H.
  rewrite H. reflexivity.
Defined.

(** * Further properties of the code *)

(** ** override.go: what validation lets through *)

Lemma validate_None_iff (t : Toggle) :
  validate t = Returns None ↔ wellTyped t ∧ ascending (Toggle.Overrides t).
Proof.
  split.
  - unfold validate, wellTyped.
    destruct (IsValidValue t (Toggle.Value t)) as [[|]|]; try discriminate.
    intros [Hasc Hty]%validateOverrides_None. auto.
  - intros [Hwt Hasc]. rewrite (validate_wellTyped t Hwt).
    destruct Hwt as [_ Hty].
    destruct (validateOverrides_typed t _ None Hty)
      as [H|(a & b & Hab & Hc & _)]; [exact H|].
    simpl in Hab. rewrite ascending_adjacent in Hasc.
    specialize (Hasc a b Hab). lia.
Qed.

(** X1.  The validation of a toggle returns no error exactly when the value
    of the toggle and the value of every override pass [IsValidValue] and
    every override ends no later than the next one starts; and
    [UnmarshalJSON] returns no error exactly when the bytes decode to such a
    toggle. *)
Theorem validate_succeeds_iff :
  (∀ t, validate t = Returns None ↔
        wellTyped t ∧ ascending (Toggle.Overrides t))
  ∧ (∀ decode b,
       snd (UnmarshalJSON decode b) = Returns None ↔
       ∃ t, decode b = inr t ∧ wellTyped t ∧ ascending (Toggle.Overrides t)).
Proof.
  split; [exact validate_None_iff|].
  intros decode b. unfold UnmarshalJSON.
  destruct (decode b) as [err|t]; simpl.
  - split; [discriminate|]. by intros (t & [=] & _).
  - rewrite validate_None_iff. split; [eauto|]. by intros (t' & [= <-] & H).
Qed.

(** X2.  A toggle that passed validation resolves, for every version, to a
    value of its declared type. *)
Theorem GetValueAt_typed (t : Toggle) (version : string) :
  validate t = Returns None →
  typeMatches (Toggle.Type_ t) (GetValueAt t version).
Proof.
  intros [[Hv Hty] _]%validate_None_iff.
  apply IsValidValue_true_iff. unfold GetValueAt.
  destruct (negb (version =? "")%string); [|exact Hv].
  destruct (GetOverride t version) as [o|] eqn:Ho; [|exact Hv].
  apply firstContaining_Some in Ho as (l1 & l2 & Hl & _ & _).
  unfold overridesTyped in Hty. rewrite Hl in Hty.
  apply Forall_app in Hty as [_ Hty].
  by apply Forall_cons in Hty as [Ho _].
Qed.

Lemma GetValueAt_typed_witness :
  typeMatches booleanType (GetValueAt samples.scenario "v1.2.0").
Proof. exact (GetValueAt_typed samples.scenario "v1.2.0" eq_refl). Defined.




(** X4.  Only the types boolean, string and number pass validation: a
    toggle of the type custom, or of any other type, is never accepted. *)
Theorem validate_known_types (t : Toggle) :
  validate t = Returns None →
  Toggle.Type_ t = booleanType ∨ Toggle.Type_ t = stringType
  ∨ Toggle.Type_ t = numberType.
Proof.
  intros [[Hv _] _]%validate_None_iff.
  apply IsValidValue_true_iff in Hv.
  destruct (Toggle.Value t); simpl in Hv; tauto.
Qed.

Lemma validate_known_types_witness :
  Toggle.Type_ samples.scenario = booleanType
  ∨ Toggle.Type_ samples.scenario = stringType
  ∨ Toggle.Type_ samples.scenario = numberType.
Proof. exact (validate_known_types samples.scenario eq_refl). Defined.

(** X5.  For a version string that is no semantic version (one without the
    leading v, say) the range of an override contains it exactly when the
    minimum version of the override is no semantic version either; so a
    toggle whose overrides all have a valid minimum version resolves to its
    default value. *)
Theorem GetValueAt_invalid_version (t : Toggle) (version : string) :
  semver.IsValid version = false →
  (∀ o, contains o version
        = negb (semver.IsValid (Override.MinimumVersion o)))
  ∧ (Forall (λ o, semver.IsValid (Override.MinimumVersion o) = true)
       (Toggle.Overrides t) →
     GetOverride t version = None
     ∧ GetValueAt t version = Toggle.Value t).
Proof.
  intros Hv.
  assert (Hc : ∀ o, contains o version
                    = negb (semver.IsValid (Override.MinimumVersion o))).
  { intros o. unfold contains.
    rewrite !(semver_facts.Compare_invalid_r _ _ Hv).
    destruct (semver.IsValid (Override.MinimumVersion o)),
             (semver.IsValid (Override.MaximumVersion o)); reflexivity. }
  split; [exact Hc|]. intros Hall.
  assert (Hnone : GetOverride t version = None).
  { apply firstContaining_None. eapply Forall_impl; [exact Hall|].
    intros o Ho. simpl. by rewrite Hc, Ho. }
  split; [exact Hnone|]. unfold GetValueAt. rewrite Hnone.
  by destruct (negb _).
Qed.

Lemma GetValueAt_invalid_version_witness :
  GetValueAt samples.scenario "1.2.0" = VBool true.
Proof.
  apply (proj2 (GetValueAt_invalid_version samples.scenario "1.2.0" eq_refl)).
  repeat constructor.
Defined.

(** ** override.go: the override of package rein *)

Section rein_facts.

Context {Version : Type}.
Variable NewVersion : string → option Version * option error.
Variable decode : list Byte.byte → error + rein.Override Version.

#[local] Abbreviation Override_UnmarshalJSON :=
  (rein.UnmarshalJSON Version NewVersion decode).

(** X6.  [Override.UnmarshalJSON] returns no error exactly when the bytes
    decode, at least one of the two versions is not empty and [NewVersion]
    accepts both; the receiver then holds the decoded strings and value and
    the two versions [NewVersion] returned. *)
Theorem Override_UnmarshalJSON_succeeds_iff
    (o o' : rein.Override Version) (b : list Byte.byte) :
  Override_UnmarshalJSON o b = (o', None) ↔
  ∃ alias vmin vmax,
    decode b = inr alias
    ∧ ¬ (rein.MinimumVersion Version alias = ""
         ∧ rein.MaximumVersion Version alias = "")
    ∧ NewVersion (rein.MinimumVersion Version alias) = (vmin, None)
    ∧ NewVersion (rein.MaximumVersion Version alias) = (vmax, None)
    ∧ o' = rein.mk Version vmin vmax (rein.MinimumVersion Version alias)
             (rein.MaximumVersion Version alias) (rein.Value Version alias).
Proof.
  unfold rein.UnmarshalJSON.
  destruct (decode b) as [err|alias]; simpl.
  { split; [discriminate|]. by intros (a & ? & ? & [=] & _). }
  destruct (String.eqb_spec (rein.MinimumVersion Version alias) "")
    as [Hmin|Hmin];
    destruct (String.eqb_spec (rein.MaximumVersion Version alias) "")
    as [Hmax|Hmax]; simpl.
  { split; [discriminate|].
    intros (a & ? & ? & [= <-] & Hne & _). by destruct Hne. }
  all: destruct (NewVersion (rein.MinimumVersion Version alias))
         as [vmin [e1|]] eqn:E1; simpl;
       [split; [discriminate|];
        intros (a & ? & ? & [= <-] & _ & H1 & _); rewrite E1 in H1;
        discriminate|];
       destruct (NewVersion (rein.MaximumVersion Version alias))
         as [vmax [e2|]] eqn:E2; simpl;
       [split; [discriminate|];
        intros (a & ? & ? & [= <-] & _ & _ & H2 & _); rewrite E2 in H2;
        discriminate|];
       split;
       [intros [= <-]; exists alias, vmin, vmax; repeat split; try done;
        intros [? ?]; done
       |intros (a & v1 & v2 & [= <-] & _ & H1 & H2 & ->);
        rewrite E1 in H1; rewrite E2 in H2; congruence].
Qed.

(** X7.  When the bytes do not decode, [Override.UnmarshalJSON] returns the
    error of the decoder and leaves the receiver as it was.  When they
    decode, the receiver is overwritten with the decoded strings and value,
    also when an error is returned; if both versions are empty the error is
    the one about empty ranges, whatever [NewVersion] does, and the receiver
    has no parsed version. *)
Theorem Override_UnmarshalJSON_errors
    (o : rein.Override Version) (b : list Byte.byte) :
  (∀ err, decode b = inl err → Override_UnmarshalJSON o b = (o, Some err))
  ∧ (∀ alias, decode b = inr alias →
       rein.MinimumVersion Version (fst (Override_UnmarshalJSON o b))
       = rein.MinimumVersion Version alias
       ∧ rein.MaximumVersion Version (fst (Override_UnmarshalJSON o b))
         = rein.MaximumVersion Version alias
       ∧ rein.Value Version (fst (Override_UnmarshalJSON o b))
         = rein.Value Version alias)
  ∧ (∀ alias, decode b = inr alias →
       rein.MinimumVersion Version alias = "" →
       rein.MaximumVersion Version alias = "" →
       Override_UnmarshalJSON o b
       = (rein.mk Version None None "" "" (rein.Value Version alias),
          Some (mkError "Override ranges cannot both be empty"
                  false false false))).
Proof.
  unfold rein.UnmarshalJSON. split; [|split].
  - intros err ->. reflexivity.
  - intros alias ->. simpl.
    destruct (_ && _); [done|].
    destruct (NewVersion (rein.MinimumVersion Version alias)) as [v1 [e1|]];
      simpl; [done|].
    by destruct (NewVersion (rein.MaximumVersion Version alias))
      as [v2 [e2|]].
  - intros alias -> Hmin Hmax. unfold rein.toOverride. simpl.
    rewrite Hmin, Hmax. reflexivity.
Qed.

End rein_facts.

(** ** build.go: what the walk leaves alone *)

(** X8.  The walk changes toggles and nothing else: with the toggles taken
    away, the tree it leaves is the tree it was given, with the same names,
    flags and children in the same order. *)
Theorem compile_keeps_shape (parent : Chamber) :
  eraseToggles (snd (compile parent)) = eraseToggles parent.
Proof.
  unfold compile. generalize (Toggles parent) as toggles.
  induction parent as [name buildable app own children IH]
    using Chamber_tree_ind.
  intros toggles. simpl. f_equal. rewrite !map_map.
  induction IH as [|x r Hx _ IHr]; simpl; [done|]. by rewrite Hx, IHr.
Qed.

Lemma compileFrom_snapshots c : ∀ toggles,
  map (λ w, (file w, pretty w, setToggles (chamber w) ∅))
      (fst (compileFrom toggles c))
  = map (λ n, ("./" +:+ Name n +:+ ".json", true, setToggles n ∅))
      (List.filter flagged (preorder c)).
Proof.
  induction c as [name buildable app own children IH]
    using Chamber_tree_ind.
  intros toggles. simpl.
  set (walks := map (λ child, compileFrom (InheritWith child toggles) child)
                  children).
  assert (Hrest :
    map (λ w, (file w, pretty w, setToggles (chamber w) ∅))
        (concat (map fst walks))
    = map (λ n, ("./" +:+ Name n +:+ ".json", true, setToggles n ∅))
        (List.filter flagged (concat (map preorder children)))).
  { subst walks. rewrite filter_concat, !concat_map, !map_map. f_equal.
    induction IH as [|x r Hx _ IHr]; simpl; [done|]. by rewrite Hx, IHr. }
  unfold flagged at 1. simpl. rewrite map_app, Hrest.
  by destruct (buildable || app).
Qed.

(** X9.  The chambers handed to [WriteChamberToFile] are the flagged nodes
    of the tree as it was given, depth first, each under the file named
    after it and with the pretty flag set; apart from its toggles a chamber
    is written as it stood before the walk, so the children it holds have
    not inherited yet.  One file is written for each flagged node. *)
Theorem compile_writes_the_given_nodes (parent : Chamber) :
  map (λ w, (file w, pretty w, setToggles (chamber w) ∅))
      (fst (compile parent))
  = map (λ n, ("./" +:+ Name n +:+ ".json", true, setToggles n ∅))
      (List.filter flagged (preorder parent))
  ∧ length (fst (compile parent))
    = length (List.filter flagged (preorder parent)).
Proof.
  pose proof (compileFrom_snapshots parent (Toggles parent)) as H.
  split; [exact H|].
  apply (f_equal length) in H. by rewrite !length_map in H.
Qed.

(** ** handler.go: the other methods *)

Module strings_facts.
#[local] Arguments String.append _ _ : simpl nomatch.

Lemma prefix_app p s : String.prefix p (p +:+ s) = true.
Proof.
  induction p as [|c p IH]; simpl; [by destruct s|].
  by destruct (ascii_dec c c).
Qed.

Lemma substring_all s : String.substring 0 (String.length s) s = s.
Proof. induction s as [|c s IH]; simpl; [done|]. by rewrite IH. Qed.

Lemma substring_app p s :
  String.substring (String.length p) (String.length s) (p +:+ s) = s.
Proof. induction p as [|c p IH]; simpl; [apply substring_all|exact IH]. Qed.

(** [strings.TrimPrefix] takes a prefix away. *)
Lemma TrimPrefix_app p s : TrimPrefix (p +:+ s) p = s.
Proof.
  unfold TrimPrefix. rewrite prefix_app, semver_facts.length_app_str.
  replace (String.length p + String.length s - String.length p)%nat
    with (String.length s) by lia.
  apply substring_app.
Qed.

End strings_facts.

Section handle_more.

Context {S : Type} `{!storage.Storage S}.
Variable json_Unmarshal_Chamber : list Byte.byte → Result (error + Chamber).
Variable ReadInterfaceWith : list Byte.byte → nat * Result (error + Chamber).

#[local] Abbreviation serve :=
  (handle json_Unmarshal_Chamber ReadInterfaceWith).

(** X10.  On a DELETE request the handler calls [Delete] with the path, the
    path "/" included: it answers 200 with neither data nor error when the
    call succeeds, 404 with the text of that status when it fails with a
    not-found error, and 500 with the message of the error otherwise. *)
Theorem handle_DELETE (r : Request) (σ : World S) :
  Method r = "DELETE" →
  let path := TrimPrefix (URL_Path r) "/v1" in
  (∀ s', storage.Delete (strg σ) path = (s', None) →
     serve r σ
     = (mkWorld s' (calls σ ++ [CallDelete path]) (logged σ),
        Returns (mkResponse "application/json" 200
                   (mkOperationResponse nil_any ""))))
  ∧ (∀ s' err, storage.Delete (strg σ) path = (s', Some err) →
       AsNotFoundError err = true →
       serve r σ
       = (mkWorld s' (calls σ ++ [CallDelete path])
            (logged σ ++ [Error err]),
          Returns (mkResponse "application/json" 404
                     (mkOperationResponse nil_any "Not Found"))))
  ∧ (∀ s' err, storage.Delete (strg σ) path = (s', Some err) →
       AsNotFoundError err = false →
       serve r σ
       = (mkWorld s' (calls σ ++ [CallDelete path])
            (logged σ ++ [Error err]),
          Returns (mkResponse "application/json" 500
                     (mkOperationResponse nil_any (Error err))))).
Proof.
  intros Hm path. unfold handle. rewrite Hm. simpl. fold path.
  unfold strg_Delete. repeat split.
  - intros s' HD. rewrite HD. simpl. by rewrite handleResponse_eq.
  - intros s' err HD Hnf. rewrite HD. simpl.
    by rewrite Hnf, handleResponse_eq.
  - intros s' err HD Hnf. rewrite HD. simpl.
    by rewrite Hnf, handleResponse_eq.
Qed.

(** X11.  On a LIST request the handler calls [List] with the path: it
    answers 200 with the names as data when the call succeeds, 404 with the
    text of that status when the error is [os.ErrNotExist], and 500 with the
    message of the error otherwise, also for a not-found error of the
    backend that is not [os.ErrNotExist]. *)
Theorem handle_LIST (r : Request) (σ : World S) :
  Method r = "LIST" →
  let path := TrimPrefix (URL_Path r) "/v1" in
  (∀ s' names, storage.List (strg σ) path = (s', inr names) →
     serve r σ
     = (mkWorld s' (calls σ ++ [CallList path]) (logged σ),
        Returns (mkResponse "application/json" 200
                   (mkOperationResponse (names_any names) ""))))
  ∧ (∀ s' err, storage.List (strg σ) path = (s', inl err) →
       IsErrNotExist err = true →
       serve r σ
       = (mkWorld s' (calls σ ++ [CallList path]) (logged σ ++ [Error err]),
          Returns (mkResponse "application/json" 404
                     (mkOperationResponse nil_any "Not Found"))))
  ∧ (∀ s' err, storage.List (strg σ) path = (s', inl err) →
       IsErrNotExist err = false →
       serve r σ
       = (mkWorld s' (calls σ ++ [CallList path]) (logged σ ++ [Error err]),
          Returns (mkResponse "application/json" 500
                     (mkOperationResponse nil_any (Error err))))).
Proof.
  intros Hm path. unfold handle. rewrite Hm. simpl. fold path.
  unfold strg_List. repeat split.
  - intros s' names HL. rewrite HL. simpl. by rewrite handleResponse_eq.
  - intros s' err HL Hne. rewrite HL. simpl.
    by rewrite Hne, handleResponse_eq.
  - intros s' err HL Hne. rewrite HL. simpl.
    by rewrite Hne, handleResponse_eq.
Qed.

(** X12.  A request whose method is none of GET, POST, DELETE and LIST,
    spelled in capitals, is answered 405 with the text of that status; the
    backend is not called, nothing is logged and the body is not read. *)
Theorem handle_other_method (r : Request) (σ : World S) :
  Method r ≠ "GET" → Method r ≠ "POST" → Method r ≠ "DELETE" →
  Method r ≠ "LIST" →
  serve r σ
  = (σ, Returns (mkResponse "application/json" 405
                   (mkOperationResponse nil_any "Method Not Allowed"))).
Proof.
  intros H1%String.eqb_neq H2%String.eqb_neq H3%String.eqb_neq
         H4%String.eqb_neq.
  unfold handle. rewrite H1, H2, H3, H4. by rewrite handleResponse_eq.
Qed.

End handle_more.

Lemma memory_Delete_stored :
  storage.Delete (strg memory.stored) "/acme/billing" = (∅, None).
Proof. vm_compute. reflexivity. Qed.

Lemma memory_Delete_empty :
  storage.Delete (strg memory.empty) "/acme/billing"
  = (∅, Some memory.notFound).
Proof. vm_compute. reflexivity. Qed.

Lemma handle_DELETE_witness :
  snd (handle memory.json_Unmarshal_Chamber memory.ReadInterfaceWith
         memory.deleteBilling memory.stored)
  = Returns (mkResponse "application/json" 200
               (mkOperationResponse nil_any ""))
  ∧ snd (handle memory.json_Unmarshal_Chamber memory.ReadInterfaceWith
           memory.deleteBilling memory.empty)
    = Returns (mkResponse "application/json" 404
                 (mkOperationResponse nil_any "Not Found")).
Proof.
  split.
  - pose proof (proj1
      (handle_DELETE memory.json_Unmarshal_Chamber memory.ReadInterfaceWith
         memory.deleteBilling memory.stored eq_refl) ∅ memory_Delete_stored)
      as H.
    exact (f_equal snd H).
  - pose proof (proj1 (proj2
      (handle_DELETE memory.json_Unmarshal_Chamber memory.ReadInterfaceWith
         memory.deleteBilling memory.empty eq_refl)) ∅ memory.notFound
      memory_Delete_empty eq_refl) as H.
    exact (f_equal snd H).
Defined.

Lemma memory_List_stored :
  storage.List (strg memory.stored) "/acme/"
  = (strg memory.stored, inr ["/acme/billing"]).
Proof. vm_compute. reflexivity. Qed.

Lemma memory_List_empty :
  storage.List (strg memory.empty) "/acme/" = (∅, inl memory.notFound).
Proof. vm_compute. reflexivity. Qed.

Lemma handle_LIST_witness :
  snd (handle memory.json_Unmarshal_Chamber memory.ReadInterfaceWith
         memory.listAcme memory.stored)
  = Returns (mkResponse "application/json" 200
               (mkOperationResponse (names_any ["/acme/billing"]) ""))
  ∧ snd (handle memory.json_Unmarshal_Chamber memory.ReadInterfaceWith
           memory.listAcme memory.empty)
    = Returns (mkResponse "application/json" 404
                 (mkOperationResponse nil_any "Not Found")).
Proof.
  split.
  - pose proof (proj1
      (handle_LIST memory.json_Unmarshal_Chamber memory.ReadInterfaceWith
         memory.listAcme memory.stored eq_refl) _ _ memory_List_stored)
      as H.
    exact (f_equal snd H).
  - pose proof (proj1 (proj2
      (handle_LIST memory.json_Unmarshal_Chamber memory.ReadInterfaceWith
         memory.listAcme memory.empty eq_refl)) _ _
      memory_List_empty eq_refl) as H.
    exact (f_equal snd H).
Defined.

Lemma handle_other_method_witness :
  handle memory.json_Unmarshal_Chamber memory.ReadInterfaceWith
    memory.patchBilling memory.stored
  = (memory.stored,
     Returns (mkResponse "application/json" 405
                (mkOperationResponse nil_any "Method Not Allowed"))).
Proof.
  apply (handle_other_method memory.json_Unmarshal_Chamber
           memory.ReadInterfaceWith memory.patchBilling memory.stored);
    discriminate.
Defined.

(** ** handler.go: every request *)

Section handle_every.

Context {S : Type} `{!storage.Storage S}.
Variable json_Unmarshal_Chamber : list Byte.byte → Result (error + Chamber).
Variable ReadInterfaceWith : list Byte.byte → nat * Result (error + Chamber).

#[local] Abbreviation serve :=
  (handle json_Unmarshal_Chamber ReadInterfaceWith).

(** The branches of the handler, one goal for each. *)
Ltac branches :=
  unfold handle, strg_Get, strg_Put, strg_Delete, strg_List, logError,
    TeeReader_buf;
  repeat (match goal with
  | |- context [if String.eqb ?a ?b then _ else _] =>
      destruct (String.eqb_spec a b)
  | |- context [storage.Get ?s ?p] =>
      destruct (storage.Get s p) as [? [?|?]] eqn:?
  | |- context [storage.Put ?s ?e] =>
      destruct (storage.Put s e) as [? [?|]] eqn:?
  | |- context [storage.Delete ?s ?p] =>
      destruct (storage.Delete s p) as [? [?|]] eqn:?
  | |- context [storage.List ?s ?p] =>
      destruct (storage.List s p) as [? [?|?]] eqn:?
  | |- context [ReadInterfaceWith ?b] =>
      destruct (ReadInterfaceWith b) as [? [[?|?]|]] eqn:?
  | |- context [json_Unmarshal_Chamber ?b] =>
      destruct (json_Unmarshal_Chamber b) as [[?|?]|] eqn:?
  | |- context [if ?b then _ else _] => destruct b eqn:?
  end; cbv beta iota zeta);
  rewrite ?handleResponse_eq; cbn [fst snd strg calls logged].

(** X13.  Whatever the request, an answer of the handler has the content
    type application/json and one of the statuses 200, 201, 400, 404, 405
    and 500; an answer 200 or 201 carries no error text; data comes only
    with the status 200 and only for the methods GET and LIST; the statuses
    201 and 400 are given to POST only. *)
Theorem handle_answers (r : Request) (σ : World S) (resp : Response) :
  snd (serve r σ) = Returns resp →
  ContentType resp = "application/json"
  ∧ StatusCode resp ∈ [200; 201; 400; 404; 405; 500]
  ∧ (StatusCode resp = 200 ∨ StatusCode resp = 201 →
       Error_ (Body resp) = "")
  ∧ (Data (Body resp) ≠ nil_any →
       StatusCode resp = 200 ∧ (Method r = "GET" ∨ Method r = "LIST"))
  ∧ (StatusCode resp = 201 ∨ StatusCode resp = 400 → Method r = "POST").
Proof.
  branches; intros Hr; try discriminate Hr; injection Hr as <-;
    cbn [ContentType StatusCode Body Error_ Data].
  all: split; [reflexivity|]; split;
    [repeat first [apply list_elem_of_here | apply list_elem_of_further]|];
    split; [intros [Hs|Hs]; first [reflexivity | discriminate Hs]|];
    split;
    [intros Hd; first [contradiction Hd; reflexivity
                      | split; [reflexivity|auto]]
    |intros [Hs|Hs]; first [assumption | discriminate Hs]].
Qed.

(** X14.  A request makes at most one call on the backend, of the kind of
    its method: a GET request only calls [Get] and a LIST request only
    [List], with the path, so neither writes; without a call the backend is
    left as it was.  A request writes at most one line to the log, after
    those that were there. *)
Theorem handle_calls (r : Request) (σ : World S) :
  let path := TrimPrefix (URL_Path r) "/v1" in
  ((calls (fst (serve r σ)) = calls σ ∧ strg (fst (serve r σ)) = strg σ)
   ∨ ∃ call, calls (fst (serve r σ)) = calls σ ++ [call]
             ∧ callOf (Method r) path call)
  ∧ ∃ lines, logged (fst (serve r σ)) = logged σ ++ lines
             ∧ (length lines ≤ 1)%nat.
Proof.
  intros path. subst path. branches.
  all: split;
    [first [left; split; reflexivity
           | right; eexists; split; [reflexivity|]; simpl; eauto]
    |first [exists []; split; [by rewrite app_nil_r|simpl; lia]
           | eexists [_]; split; [reflexivity|simpl; lia]]].
Qed.

Lemma handle_GET_Panics (r : Request) (σ : World S) s' entry :
  Method r = "GET" → TrimPrefix (URL_Path r) "/v1" ≠ "/" →
  storage.Get (strg σ) (TrimPrefix (URL_Path r) "/v1") = (s', inr entry) →
  json_Unmarshal_Chamber (storage.Value entry) = Panics →
  serve r σ
  = (mkWorld s' (calls σ ++ [CallGet (TrimPrefix (URL_Path r) "/v1")])
       (logged σ), Panics).
Proof.
  intros Hm Hp%String.eqb_neq HG HU. unfold handle, strg_Get.
  rewrite Hm, Hp, HG. simpl. by rewrite HU.
Qed.

Lemma handle_POST_Panics (r : Request) (σ : World S) n :
  Method r = "POST" → ReadInterfaceWith (Request_Body r) = (n, Panics) →
  serve r σ = (σ, Panics).
Proof. intros Hm HR. unfold handle. rewrite Hm, HR. reflexivity. Qed.

(** X15.  The handler panics only when a decoder does: on a GET request
    whose entry was fetched and whose bytes make [json.Unmarshal] panic, or
    on a POST request whose body makes the reader panic, and then before
    any call on the backend.  An error of the backend never makes it
    panic. *)
Theorem handle_Panics_iff (r : Request) (σ : World S) :
  let path := TrimPrefix (URL_Path r) "/v1" in
  snd (serve r σ) = Panics ↔
  (Method r = "GET" ∧ path ≠ "/"
   ∧ ∃ s' entry, storage.Get (strg σ) path = (s', inr entry)
                 ∧ json_Unmarshal_Chamber (storage.Value entry) = Panics)
  ∨ (Method r = "POST"
     ∧ ∃ n, ReadInterfaceWith (Request_Body r) = (n, Panics)
            ∧ fst (serve r σ) = σ).
Proof.
  intros path. split.
  - set (P := _ ∨ _). subst path. branches; try discriminate; intros _.
    + subst P. left. split; [assumption|]. split; [assumption|].
      eexists _, _. split; [reflexivity|assumption].
    + subst P. right. split; [assumption|]. eexists. split; [reflexivity|].
      by erewrite handle_POST_Panics.
  - intros [(Hm & Hp & s' & entry & HG & HU)|(Hm & n & HR & _)].
    + by erewrite handle_GET_Panics.
    + by erewrite handle_POST_Panics.
Qed.

End handle_every.

Lemma memory_get_stored :
  snd (handle memory.json_Unmarshal_Chamber memory.ReadInterfaceWith
         memory.get memory.stored)
  = Returns (mkResponse "application/json" 200
               (mkOperationResponse (chamber_any memory.billing) "")).
Proof. vm_compute. reflexivity. Qed.

Lemma handle_answers_witness :
  StatusCode (mkResponse "application/json" 200
                (mkOperationResponse (chamber_any memory.billing) ""))
  ∈ [200; 201; 400; 404; 405; 500].
Proof.
  exact (proj1 (proj2
    (handle_answers memory.json_Unmarshal_Chamber memory.ReadInterfaceWith
       memory.get memory.stored _ memory_get_stored))).
Defined.

(** ** handler.go: a POST request and the GET request after it *)

Section handle_round_trip.

Context {S : Type} `{!storage.Storage S}.
Variable json_Unmarshal_Chamber : list Byte.byte → Result (error + Chamber).
Variable ReadInterfaceWith : list Byte.byte → nat * Result (error + Chamber).

#[local] Abbreviation serve :=
  (handle json_Unmarshal_Chamber ReadInterfaceWith).

(** X16.  What a POST request stores, a GET request reads back: when a
    POST request is answered 201, the backend returns under a key the entry
    that was put under it, and the bytes that were read decode again to the
    chamber, then a GET request for the path of the POST request, ended by
    a slash and followed by the name of the chamber, is answered 200 with
    that chamber, provided the key is not "/". *)
Theorem handle_POST_then_GET (post get : Request) (σ : World S)
    (n : nat) (c : Chamber) (s1 s2 : S) :
  let key :=
    EnsureTrailingSlash (TrimPrefix (URL_Path post) "/v1") +:+ Name c in
  let entry := storage.mkEntry key (take n (Request_Body post)) in
  Method post = "POST" → Method get = "GET" →
  URL_Path get = "/v1" +:+ key → key ≠ "/" →
  ReadInterfaceWith (Request_Body post) = (n, Returns (inr c)) →
  storage.Put (strg σ) entry = (s1, None) →
  storage.Get s1 key = (s2, inr entry) →
  json_Unmarshal_Chamber (take n (Request_Body post)) = Returns (inr c) →
  snd (serve post σ)
  = Returns (mkResponse "application/json" 201
               (mkOperationResponse nil_any ""))
  ∧ serve get (fst (serve post σ))
    = (mkWorld s2 (calls σ ++ [CallPut entry; CallGet key]) (logged σ),
       Returns (mkResponse "application/json" 200
                  (mkOperationResponse (chamber_any c) ""))).
Proof.
  intros key entry Hpost Hget Hurl Hkey HR HP HG HU.
  assert (H1 : serve post σ
    = (mkWorld s1 (calls σ ++ [CallPut entry]) (logged σ),
       Returns (mkResponse "application/json" 201
                  (mkOperationResponse nil_any "")))).
  { unfold handle. rewrite Hpost. simpl. rewrite HR.
    unfold TeeReader_buf, strg_Put. fold key entry. rewrite HP. simpl.
    by rewrite handleResponse_eq. }
  rewrite H1. split; [reflexivity|]. simpl.
  unfold handle. rewrite Hget, Hurl, strings_facts.TrimPrefix_app. simpl.
  apply String.eqb_neq in Hkey. rewrite Hkey.
  unfold strg_Get. simpl. rewrite HG. simpl. rewrite HU.
  by rewrite handleResponse_eq, <- app_assoc.
Qed.


End handle_round_trip.

Lemma memory_Put_billing :
  storage.Put (strg memory.empty)
    (storage.mkEntry "/acme/billing"
       (take (length (Request_Body memory.post)) (Request_Body memory.post)))
  = (strg memory.stored, None).
Proof. vm_compute. reflexivity. Qed.

Lemma memory_Get_billing :
  storage.Get (strg memory.stored) "/acme/billing"
  = (strg memory.stored,
     inr (storage.mkEntry "/acme/billing"
            (take (length (Request_Body memory.post))
               (Request_Body memory.post)))).
Proof. vm_compute. reflexivity. Qed.

Lemma handle_POST_then_GET_witness :
  snd (handle memory.json_Unmarshal_Chamber memory.ReadInterfaceWith
         memory.get
         (fst (handle memory.json_Unmarshal_Chamber memory.ReadInterfaceWith
                 memory.post memory.empty)))
  = Returns (mkResponse "application/json" 200
               (mkOperationResponse (chamber_any memory.billing) "")).
Proof.
  pose proof (proj2
    (handle_POST_then_GET memory.json_Unmarshal_Chamber
       memory.ReadInterfaceWith memory.post memory.get memory.empty
       (length (Request_Body memory.post)) memory.billing
       (strg memory.stored) (strg memory.stored)
       eq_refl eq_refl eq_refl ltac:(discriminate) eq_refl
       memory_Put_billing memory_Get_billing eq_refl)) as H.
  exact (f_equal snd H).
Defined.


(** ** handler.go: the request for the agent *)

Section buildAgentRequest_facts.

#[local] Arguments String.append _ _ : simpl nomatch.

(** X18.  The operation of the request built for the agent: it is the list
    operation exactly for the method LIST and for the method GET with a
    query parameter that [strconv.ParseBool] reads as true; the get
    operation for every other GET request, also when the parameter is not a
    boolean; put for POST, delete for DELETE; and the empty operation
    exactly for every other method.  The request and the identifier are
    kept. *)
Theorem buildAgentRequest_Operation (req : Request) (list id : string) :
  let a := buildAgentRequest req list id in
  (AgentRequest.Operation a = ListOperation
   ↔ Method req = "LIST"
     ∨ Method req = "GET" ∧ strconv.ParseBool list = Some true)
  ∧ (AgentRequest.Operation a = GetOperation
     ↔ Method req = "GET" ∧ strconv.ParseBool list ≠ Some true)
  ∧ (AgentRequest.Operation a = PutOperation ↔ Method req = "POST")
  ∧ (AgentRequest.Operation a = DeleteOperation ↔ Method req = "DELETE")
  ∧ (AgentRequest.Operation a = ""
     ↔ Method req ∉ ["GET"; "POST"; "DELETE"; "LIST"])
  ∧ AgentRequest.Request a = req ∧ AgentRequest.ID a = id.
Proof.
  cbv zeta. unfold buildAgentRequest. cbn [AgentRequest.Operation
    AgentRequest.Request AgentRequest.ID].
  destruct (String.eqb_spec (Method req) "GET") as [Hm|Hm].
  - assert (Hop : (if negb (String.eqb list "")
                   then if match strconv.ParseBool list with
                           | Some b => b | None => false end
                        then ListOperation else GetOperation
                   else GetOperation)
                  = if match strconv.ParseBool list with
                       | Some true => true | _ => false end
                    then ListOperation else GetOperation).
    { destruct (String.eqb_spec list "") as [->|_]; [reflexivity|].
      simpl. by destruct (strconv.ParseBool list) as [[]|]. }
    rewrite Hop, Hm. clear Hop.
    destruct (strconv.ParseBool list) as [[]|];
      unfold ListOperation, GetOperation, PutOperation, DeleteOperation;
      repeat split; try discriminate; try tauto; try congruence;
      try (intros [? | [? ?]]; congruence);
      try (intros [? ?]; congruence);
      try (intros H; exfalso; apply H; apply list_elem_of_here).
    all: intros _; right; split; reflexivity.
  - destruct (String.eqb_spec (Method req) "POST") as [Hp|Hp];
      [|destruct (String.eqb_spec (Method req) "DELETE") as [Hd|Hd];
        [|destruct (String.eqb_spec (Method req) "LIST") as [Hl|Hl]]].
    all: unfold ListOperation, GetOperation, PutOperation, DeleteOperation.
    all: repeat split; try discriminate; try congruence;
      try (intros [? | [? ?]]; congruence);
      try (intros [? ?]; congruence); try tauto.
    all: try (intros H; exfalso; apply H; rewrite ?Hp, ?Hd, ?Hl;
              repeat first [apply list_elem_of_here
                           |apply list_elem_of_further]; fail).
    intros _ Hin.
    repeat (apply elem_of_cons in Hin; destruct Hin as [Hin|Hin];
            [congruence|]).
    by apply elem_of_nil in Hin.
Qed.

End buildAgentRequest_facts.

(** ** The stack of options *)

Section Stack_facts.

Context {OpenOption : Type}.

#[local] Abbreviation Stack := (options.Stack OpenOption).

Lemma Pop_Push_eq (s : Stack) (x : OpenOption) :
  options.Pop OpenOption (options.Push OpenOption s x)
  = Returns (s, (Some x, true)).
Proof.
  unfold options.Pop, options.Push, options.IsEmpty.
  rewrite length_app. simpl.
  replace (length s + 1 =? 0)%nat with false
    by (symmetry; apply Nat.eqb_neq; lia).
  replace (length s + 1 - 1)%nat with (length s) by lia.
  rewrite lookup_app_r by lia. rewrite Nat.sub_diag. simpl.
  by rewrite take_app_length.
Qed.

(** X19.  [Pop] never panics, whatever the stack: on the empty stack it
    returns nil and false and leaves the stack empty; on any other stack
    it returns true with the element pushed last, and leaves the stack as
    it was before that element was pushed.  So the second result is false
    exactly when the stack is empty. *)
Theorem Pop_total (s : Stack) :
  (s = [] ∧ options.Pop OpenOption s = Returns ([], (None, false)))
  ∨ (∃ s' x, s = options.Push OpenOption s' x
             ∧ options.Pop OpenOption s = Returns (s', (Some x, true))).
Proof.
  destruct s as [|y s] using rev_ind.
  - left. split; reflexivity.
  - right. exists s, y. split; [reflexivity|]. apply Pop_Push_eq.
Qed.

(** X20.  Last in, first out: after the elements [xs] were pushed one
    after the other on a stack, as many calls of [Pop] return them in the
    reverse order and leave the stack as it was. *)
Theorem Pop_reverses_Push (s : Stack) (xs : list OpenOption) :
  options.PopN OpenOption (length xs)
    (fold_left (options.Push OpenOption) xs s)
  = (s, rev xs).
Proof.
  revert s. induction xs as [|x xs IH] using rev_ind; intros s.
  - reflexivity.
  - rewrite fold_left_app, length_app, rev_app_distr. simpl.
    replace (length xs + 1)%nat with (Datatypes.S (length xs)) by lia.
    simpl. rewrite Pop_Push_eq. by rewrite IH.
Qed.

End Stack_facts.
